(** * mkpdh_defs: the PDH error-constant generator

    A shallow embedding of [helpers/windows/pdh/mkpdh_defs.go].  The
    generator runs [gcc -E -dD] over [pdhmsg.h], scans the expanded text
    for [#define PDH_...] lines, renders the captured names through a
    fixed [text/template], writes the result and runs [gofmt -w] on it.

    Go strings are byte sequences; they are modelled as [string] (a list
    of [ascii] bytes).  The parts of the Go standard library the program
    calls ([regexp], [bufio.Scanner], [text/template], [flag], [os],
    [os/exec]) are modelled for the subset of their behaviour the
    program exercises. *)

From Stdlib Require Import Strings.String Strings.Ascii Numbers.DecimalString.
From Stdlib Require Import Lists.List Bool.Bool Arith.PeanoNat NArith.NArith Lia.
Import ListNotations.

Set Warnings "-register-all".

Local Open Scope list_scope.
Local Open Scope string_scope.

(** ** Bytes and strings *)

Definition byte_of (n : nat) : ascii := ascii_of_nat n.

Definition TAB : string := String (byte_of 9) "".
Definition NL : string := String (byte_of 10) "".
Definition DQ : string := String (byte_of 34) "".

Definition is_newline (c : ascii) : bool := Ascii.eqb c (byte_of 10).
Definition is_cr (c : ascii) : bool := Ascii.eqb c (byte_of 13).

Fixpoint repeat_byte (c : ascii) (n : nat) : string :=
  match n with
  | O => ""
  | S n' => String c (repeat_byte c n')
  end.

(** [s[lo:hi]] on a Go string. *)
Definition slice (s : string) (lo hi : nat) : string := substring lo (hi - lo) s.

Fixpoint drop (n : nat) (s : string) : string :=
  match n, s with
  | O, _ => s
  | S n', String _ s' => drop n' s'
  | S _, EmptyString => ""
  end.

Fixpoint take_while (p : ascii -> bool) (s : string) : string :=
  match s with
  | String c s' => if p c then String c (take_while p s') else ""
  | EmptyString => ""
  end.

Fixpoint drop_while (p : ascii -> bool) (s : string) : string :=
  match s with
  | String c s' => if p c then drop_while p s' else s
  | EmptyString => ""
  end.

Fixpoint all_bytes (p : ascii -> bool) (s : string) : bool :=
  match s with
  | String c s' => p c && all_bytes p s'
  | EmptyString => true
  end.

(** [strings.HasPrefix], returning the remainder. *)
Fixpoint strip_prefix (p s : string) : option string :=
  match p, s with
  | EmptyString, _ => Some s
  | String a p', String b s' => if Ascii.eqb a b then strip_prefix p' s' else None
  | String _ _, EmptyString => None
  end.

(** [strings.Contains]. *)
Fixpoint contains (needle hay : string) : bool :=
  match strip_prefix needle hay with
  | Some _ => true
  | None =>
      match hay with
      | String _ hay' => contains needle hay'
      | EmptyString => false
      end
  end.

Fixpoint concat_all (l : list string) : string :=
  match l with
  | [] => ""
  | s :: l' => s ++ concat_all l'
  end.

(** ** Errors *)

(** Go [error] values the program can meet.  [ExecError] stands for
    whatever [exec.Cmd.Output] reports (tool missing, non-zero exit, a
    fault on the pipe); [PathError] for [os.Create] and file writes. *)
Inductive error : Type :=
| ExecError (msg : string)
| PathError (msg : string)
| ErrTooLong
| TemplateExecError (msg : string).

Definition Error (e : error) : string :=
  match e with
  | ExecError m => m
  | PathError m => m
  | ErrTooLong => "bufio.Scanner: token too long"
  | TemplateExecError m => m
  end.

Inductive result (A : Type) : Type :=
| Ok (a : A)
| Err (e : error).
Arguments Ok {A} a.
Arguments Err {A} e.

(** ** regexp *)

Module regexp.

(** The fragment of RE2 syntax that [pdhErrorRegex] uses: literals,
    character classes, concatenation, greedy one-or-more of a class,
    a numbered capturing group and the begin-of-text anchor. *)
Inductive Regexp : Type :=
| BeginText
| Lit (c : ascii)
| Class (p : ascii -> bool)
| PlusClass (p : ascii -> bool)
| Cat (r1 r2 : Regexp)
| Group (i : nat) (r : Regexp).

(** Submatch positions: group number to [(start, end)] byte offsets. *)
Definition caps := list (nat * (nat * nat)).

Definition cont := nat -> string -> caps -> option caps.

(** Backtracking matcher with leftmost-first (Perl-like) preference:
    [m r pos rest c k] matches [r] against [rest], which starts at
    byte offset [pos] of the text, and hands what is left to [k]. *)
Fixpoint m (r : Regexp) (pos : nat) (rest : string) (c : caps) (k : cont)
  : option caps :=
  match r with
  | BeginText => if Nat.eqb pos 0 then k pos rest c else None
  | Lit a =>
      match rest with
      | String b rest' => if Ascii.eqb a b then k (S pos) rest' c else None
      | EmptyString => None
      end
  | Class p =>
      match rest with
      | String b rest' => if p b then k (S pos) rest' c else None
      | EmptyString => None
      end
  | PlusClass p =>
      (fix loop (rest : string) (pos : nat) {struct rest} : option caps :=
         match rest with
         | String b rest' =>
             if p b then
               match loop rest' (S pos) with
               | Some res => Some res
               | None => k (S pos) rest' c
               end
             else None
         | EmptyString => None
         end) rest pos
  | Cat r1 r2 => m r1 pos rest c (fun pos' rest' c' => m r2 pos' rest' c' k)
  | Group i r =>
      m r pos rest c (fun pos' rest' c' => k pos' rest' ((i, (pos, pos')) :: c'))
  end.

(** Try the start offsets from left to right. *)
Fixpoint search (r : Regexp) (pos : nat) (rest : string) : option caps :=
  match m r pos rest [] (fun pos' _ c => Some ((0, (pos, pos')) :: c)) with
  | Some c => Some c
  | None =>
      match rest with
      | String _ rest' => search r (S pos) rest'
      | EmptyString => None
      end
  end.

Fixpoint lookup (i : nat) (c : caps) : option (nat * nat) :=
  match c with
  | [] => None
  | (j, span) :: c' => if Nat.eqb i j then Some span else lookup i c'
  end.

Fixpoint NumSubexp (r : Regexp) : nat :=
  match r with
  | Cat r1 r2 => Nat.max (NumSubexp r1) (NumSubexp r2)
  | Group i r => Nat.max i (NumSubexp r)
  | _ => 0
  end.

(** [Regexp.FindStringSubmatch]: [[]] (nil) when there is no match,
    otherwise the text of the whole match followed by the text of each
    group (the empty string for a group that did not take part). *)
Definition FindStringSubmatch (r : Regexp) (s : string) : list string :=
  match search r 0 s with
  | None => []
  | Some c =>
      map (fun i => match lookup i c with
                    | Some (lo, hi) => slice s lo hi
                    | None => ""
                    end)
          (seq 0 (S (NumSubexp r)))
  end.

(** Perl character class [\w]. *)
Definition word (c : ascii) : bool :=
  let n := nat_of_ascii c in
  (Nat.leb 48 n && Nat.leb n 57)        (* 0-9 *)
  || (Nat.leb 65 n && Nat.leb n 90)     (* A-Z *)
  || (Nat.leb 97 n && Nat.leb n 122)    (* a-z *)
  || Nat.eqb n 95.                      (* _ *)

Fixpoint Literal (s : string) : Regexp -> Regexp :=
  match s with
  | String c s' => fun r => Cat (Lit c) (Literal s' r)
  | EmptyString => fun r => r
  end.

End regexp.

(** [pdhErrorRegex = regexp.MustCompile(`^#define (PDH_[\w_]+)`)] *)
Definition pdhErrorRegex : regexp.Regexp :=
  regexp.Cat regexp.BeginText
    (regexp.Literal "#define "
       (regexp.Group 1
          (regexp.Literal "PDH_"
             (regexp.PlusClass
                (fun c => regexp.word c || Ascii.eqb c "_"%char))))).

(** ** bufio *)

Module bufio.

(** [MaxScanTokenSize = 64 * 1024]: the largest buffer a [Scanner]
    made by [NewScanner] allocates. *)
Definition MaxScanTokenSize : N := 65536.

Fixpoint len (s : string) : N :=
  match s with
  | String _ s' => N.succ (len s')
  | EmptyString => 0%N
  end.

(** [dropCR] drops a terminal carriage return from the data. *)
Fixpoint dropCR (data : string) : string :=
  match data with
  | String c EmptyString => if is_cr c then "" else data
  | String c data' => String c (dropCR data')
  | EmptyString => ""
  end.

(** The bytes before the first newline ([data[0:i]] with
    [i = bytes.IndexByte(data, '\n')]) and, when there is a newline,
    the bytes after it ([data[i+1:]]). *)
Fixpoint cut_line (data : string) : string * option string :=
  match data with
  | String c data' =>
      if is_newline c then ("", Some data')
      else let (line, rest) := cut_line data' in (String c line, rest)
  | EmptyString => ("", None)
  end.

(** A scanner over an in-memory reader ([bytes.Buffer]): [src] is the
    input not yet consumed, [text] the last token, [err] the sticky
    error that [Err] reports. *)
Record Scanner : Type := mkScanner {
  src : string;
  text : string;
  err : option error;
  maxTokenSize : N
}.

Definition NewScanner (r : string) : Scanner :=
  mkScanner r "" None MaxScanTokenSize.

(** One call of [Scan] with the [ScanLines] split function.  The
    scanner's buffer grows up to [maxTokenSize] bytes; a line is
    delivered when its bytes and its newline fit in the buffer, or when
    the input ends before the buffer is full.  A buffer that is full
    and holds no newline stops the scan with [ErrTooLong].  ([Scan] is
    modelled up to its first [false]; the program does not call it
    again after that.) *)
Definition Scan (s : Scanner) : bool * Scanner :=
  match err s with
  | Some _ => (false, s)
  | None =>
      match src s with
      | EmptyString => (false, s)
      | String _ _ =>
          let (line, rest) := cut_line (src s) in
          if (len line <? maxTokenSize s)%N then
            (true, mkScanner (match rest with Some r => r | None => "" end)
                             (dropCR line) None (maxTokenSize s))
          else
            (false, mkScanner (src s) "" (Some ErrTooLong) (maxTokenSize s))
      end
  end.

Definition Text (s : Scanner) : string := text s.
Definition Err (s : Scanner) : option error := err s.

End bufio.

(** [type TemplateParams struct { Errors []string }] *)
Record TemplateParams : Type := mkTemplateParams {
  Errors : list string
}.

(** ** text/template *)

Module template.

(** White space that the trim markers [{{- ] and [ -}}] remove. *)
Definition isSpace (c : ascii) : bool :=
  Ascii.eqb c " "%char || Ascii.eqb c (byte_of 9)
  || Ascii.eqb c (byte_of 13) || Ascii.eqb c (byte_of 10).

Fixpoint rev_onto (s acc : string) : string :=
  match s with
  | String c s' => rev_onto s' (String c acc)
  | EmptyString => acc
  end.

Definition rev (s : string) : string := rev_onto s "".

Definition trim_left (s : string) : string := drop_while isSpace s.
Definition trim_right (s : string) : string := rev (drop_while isSpace (rev s)).
Definition TrimSpace (s : string) : string := trim_left (trim_right s).

(** *** Lexing: text and the actions between [{{] and [}}] *)

Inductive item : Type :=
| itemText (s : string)
| itemAction (raw : string)
| itemError.

Definition push (c : ascii) (l : list item) : list item :=
  match l with
  | itemText s :: l' => itemText (String c s) :: l'
  | itemAction s :: l' => itemAction (String c s) :: l'
  | _ => l
  end.

(** The head of the result is the item being read: a text item
    outside an action, the raw contents of the action inside one.  An
    action that the input does not close is an error. *)
Fixpoint lex (inAction : bool) (s : string) : list item :=
  match s with
  | EmptyString => if inAction then [itemError] else [itemText ""]
  | String c1 s1 =>
      match s1 with
      | String c2 s2 =>
          if inAction then
            if Ascii.eqb c1 "}"%char && Ascii.eqb c2 "}"%char
            then itemAction "" :: lex false s2
            else push c1 (lex true s1)
          else
            if Ascii.eqb c1 "{"%char && Ascii.eqb c2 "{"%char
            then itemText "" :: lex true s2
            else push c1 (lex false s1)
      | EmptyString =>
          if inAction then [itemError] else [itemText (String c1 "")]
      end
  end.

(** [{{- ]: a minus sign and white space right after the left
    delimiter; [ -}}]: white space and a minus sign right before the
    right delimiter. *)
Definition hasLeftTrimMarker (raw : string) : bool :=
  match raw with
  | String c1 (String c2 _) => Ascii.eqb c1 "-"%char && isSpace c2
  | _ => false
  end.

Definition hasRightTrimMarker (raw : string) : bool :=
  match rev raw with
  | String c1 (String c2 _) => Ascii.eqb c1 "-"%char && isSpace c2
  | _ => false
  end.

Definition action_body (raw : string) : string :=
  let raw := if hasLeftTrimMarker raw then drop 1 raw else raw in
  let raw := if hasRightTrimMarker raw then rev (drop 1 (rev raw)) else raw in
  TrimSpace raw.

(** A left trim marker trims the trailing white space of the text
    just before the action, a right trim marker the leading white
    space of the text just after it. *)
Fixpoint trim_items (afterRightTrim : bool) (l : list item) : list item :=
  match l with
  | itemText s :: l' =>
      let s := if afterRightTrim then trim_left s else s in
      let s := match l' with
               | itemAction raw :: _ =>
                   if hasLeftTrimMarker raw then trim_right s else s
               | _ => s
               end in
      itemText s :: trim_items false l'
  | itemAction raw :: l' =>
      itemAction (action_body raw) :: trim_items (hasRightTrimMarker raw) l'
  | itemError :: l' => itemError :: trim_items false l'
  | [] => []
  end.

(** [strings.Fields]: the current word and the words after it. *)
Fixpoint fields_from (s : string) : string * list string :=
  match s with
  | String c s' =>
      let (w, ws) := fields_from s' in
      if isSpace c
      then ("", if String.eqb w "" then ws else w :: ws)
      else (String c w, ws)
  | EmptyString => ("", [])
  end.

Definition Fields (s : string) : list string :=
  let (w, ws) := fields_from s in
  if String.eqb w "" then ws else w :: ws.

(** *** Parsing *)

(** The actions of the fragment: [{{range $i, $e := .Field}}],
    [{{end}}] and the output of a variable [{{$e}}]. *)
Inductive command : Type :=
| cmdRange (idx elem field : string)
| cmdEnd
| cmdVariable (name : string).

Definition is_variable (w : string) : bool :=
  match w with
  | String c (String _ _) => Ascii.eqb c "$"%char
  | _ => false
  end.

Definition is_field (w : string) : option string :=
  match w with
  | String c (String d f) =>
      if Ascii.eqb c "."%char then Some (String d f) else None
  | _ => None
  end.

Definition strip_comma (w : string) : option string :=
  match rev w with
  | String c r => if Ascii.eqb c ","%char then Some (rev r) else None
  | EmptyString => None
  end.

Definition parse_action (body : string) : option command :=
  match Fields body with
  | [w] =>
      if String.eqb w "end" then Some cmdEnd
      else if is_variable w then Some (cmdVariable w)
      else None
  | [kw; a; b; def; f] =>
      if String.eqb kw "range" && String.eqb def ":=" && is_variable b then
        match strip_comma a, is_field f with
        | Some i, Some fld =>
            if is_variable i then Some (cmdRange i b fld) else None
        | _, _ => None
        end
      else None
  | _ => None
  end.

Inductive Node : Type :=
| TextNode (s : string)
| VariableNode (name : string)
| RangeNode (idx elem field : string) (body : list Node).

(** [stack] holds, for every [range] still open, its header and the
    nodes (last first) read before it; [cur] the nodes (last first) of
    the list being read. *)
Fixpoint parse_items (l : list item)
         (stack : list (string * string * string * list Node))
         (cur : list Node) : option (list Node) :=
  match l with
  | [] =>
      match stack with
      | [] => Some (List.rev cur)
      | _ :: _ => None
      end
  | itemText s :: l' =>
      parse_items l' stack
        (if String.eqb s "" then cur else TextNode s :: cur)
  | itemAction body :: l' =>
      match parse_action body with
      | Some (cmdRange i e f) => parse_items l' ((i, e, f, cur) :: stack) []
      | Some cmdEnd =>
          match stack with
          | (i, e, f, outer) :: stack' =>
              parse_items l' stack' (RangeNode i e f (List.rev cur) :: outer)
          | [] => None
          end
      | Some (cmdVariable v) => parse_items l' stack (VariableNode v :: cur)
      | None => None
      end
  | itemError :: _ => None
  end.

Definition Template := list Node.

(** [template.New(name).Parse(text)]; [None] is a parse error. *)
Definition Parse (text : string) : option Template :=
  parse_items (trim_items false (lex false text)) [] [].

(** *** Execution *)

Inductive value : Type :=
| VString (s : string)
| VInt (n : nat)
| VStrings (l : list string).

Definition field (p : TemplateParams) (name : string) : option value :=
  if String.eqb name "Errors" then Some (VStrings (Errors p)) else None.

Fixpoint lookup (name : string) (vars : list (string * value)) : option value :=
  match vars with
  | [] => None
  | (n, v) :: vars' => if String.eqb n name then Some v else lookup name vars'
  end.

Fixpoint join (sep : string) (l : list string) : string :=
  match l with
  | [] => ""
  | [s] => s
  | s :: l' => s ++ sep ++ join sep l'
  end.

(** [fmt.Fprint] of a value. *)
Definition print (v : value) : string :=
  match v with
  | VString s => s
  | VInt n => NilEmpty.string_of_uint (Nat.to_uint n)
  | VStrings l => "[" ++ join " " l ++ "]"
  end.

Definition bind (r : result string) (k : string -> result string) : result string :=
  match r with
  | Ok s => k s
  | Err e => Err e
  end.

(** The text a list of nodes writes, each node run by [run]. *)
Definition seq_nodes (run : Node -> result string) : list Node -> result string :=
  fix go (ns : list Node) : result string :=
    match ns with
    | [] => Ok ""
    | n :: ns' => bind (run n) (fun a => bind (go ns') (fun b => Ok (a ++ b)))
    end.

(** The text a [range] writes over the elements [l], the first of
    them at index [k]. *)
Fixpoint each (body : string -> nat -> result string) (l : list string) (k : nat)
  : result string :=
  match l with
  | [] => Ok ""
  | x :: l' =>
      bind (body x k) (fun a => bind (each body l' (S k)) (fun b => Ok (a ++ b)))
  end.

(** The text a node writes.  A [range] over a slice runs its body
    once per element, in order, with the two variables set to the
    index and the element; over an empty slice it writes nothing. *)
Fixpoint exec (dot : TemplateParams) (vars : list (string * value)) (n : Node)
  : result string :=
  match n with
  | TextNode s => Ok s
  | VariableNode v =>
      match lookup v vars with
      | Some x => Ok (print x)
      | None => Err (TemplateExecError ("undefined variable: " ++ v))
      end
  | RangeNode i e f body =>
      match field dot f with
      | Some (VStrings l) =>
          each (fun x k =>
                  seq_nodes (exec dot ((e, VString x) :: (i, VInt k) :: vars)) body)
               l 0
      | Some _ => Err (TemplateExecError ("range can't iterate over " ++ f))
      | None => Err (TemplateExecError ("can't evaluate field " ++ f))
      end
  end.

Definition exec_nodes (dot : TemplateParams) (vars : list (string * value))
  : list Node -> result string :=
  seq_nodes (exec dot vars).

(** The whole text [t.Execute(w, data)] writes to [w]. *)
Definition Execute (t : Template) (data : TemplateParams) : result string :=
  exec_nodes data [] t.

End template.

Definition unlines (l : list string) : string :=
  concat_all (map (fun s => s ++ NL) l).

Definition fileTemplate : string :=
  unlines
    [ "";
      "// go run mkpdh_defs.go";
      "// MACHINE GENERATED BY THE ABOVE COMMAND; DO NOT EDIT";
      "";
      "// +build ignore";
      "";
      "package pdh";
      "";
      "/*";
      "#include <pdh.h>";
      "#include <pdhmsg.h>";
      "#cgo LDFLAGS: -lpdh";
      "*/";
      "import " ++ DQ ++ "C" ++ DQ;
      "";
      "type PdhErrno uintptr";
      "";
      "// PDH Error Codes";
      "const (";
      "{{- range $i, $errorCode := .Errors }}";
      TAB ++ "{{ $errorCode }} PdhErrno = C.{{ $errorCode }}";
      "{{- end }}";
      ")";
      "";
      "var pdhErrors = map[PdhErrno]struct{}{";
      "{{- range $i, $errorCode := .Errors }}";
      TAB ++ "{{ $errorCode }}: struct{}{},";
      "{{- end }}";
      "}";
      "";
      "type PdhCounterFormat uint32";
      "";
      "// PDH Counter Formats";
      "const (";
      TAB ++ "// PdhFmtDouble returns data as a double-precision floating point real.";
      TAB ++ "PdhFmtDouble PdhCounterFormat = C.PDH_FMT_DOUBLE";
      TAB ++ "// PdhFmtLarge returns data as a 64-bit integer.";
      TAB ++ "PdhFmtLarge PdhCounterFormat = C.PDH_FMT_LARGE";
      TAB ++ "// PdhFmtLong returns data as a long integer.";
      TAB ++ "PdhFmtLong PdhCounterFormat = C.PDH_FMT_LONG";
      "";
      TAB ++ "// Use bitwise operators to combine these values with the counter type to scale the value.";
      "";
      "    // Do not apply the counter's default scaling factor.";
      TAB ++ "PdhFmtNoScale PdhCounterFormat = C.PDH_FMT_NOSCALE";
      TAB ++ "// Counter values greater than 100 (for example, counter values measuring";
      TAB ++ "// the processor load on multiprocessor computers) will not be reset to 100.";
      TAB ++ "// The default behavior is that counter values are capped at a value of 100.";
      TAB ++ "PdhFmtNoCap100 PdhCounterFormat = C.PDH_FMT_NOCAP100";
      TAB ++ "// Multiply the actual value by 1,000.";
      TAB ++ "PdhFmtMultiply1000 PdhCounterFormat = C.PDH_FMT_1000";
      ")" ].

(** [template.Must] panics when the parse failed; it is given the
    evidence that it did not. *)
Definition Must (o : option template.Template) : o <> None -> template.Template :=
  match o with
  | Some t => fun _ => t
  | None => fun H => False_rect _ (H eq_refl)
  end.

Definition fileTemplate_parses : template.Parse fileTemplate <> None :=
  ltac:(vm_compute; discriminate).

(** [tmpl = template.Must(template.New("defs_pdh_windows").Parse(fileTemplate))] *)
Definition tmpl : template.Template :=
  Must (template.Parse fileTemplate) fileTemplate_parses.

(** ** flag *)

Module flag.

Record Flag : Type := mkFlag {
  Name : string;
  Usage : string;
  Value : string;
  DefValue : string
}.

(** A flag set holds the flags defined so far, with their current
    values. *)
Definition FlagSet := list Flag.

Fixpoint Lookup (f : FlagSet) (name : string) : option Flag :=
  match f with
  | [] => None
  | x :: f' => if String.eqb (Name x) name then Some x else Lookup f' name
  end.

Fixpoint Set_ (f : FlagSet) (name value : string) : FlagSet :=
  match f with
  | [] => []
  | x :: f' =>
      if String.eqb (Name x) name
      then mkFlag (Name x) (Usage x) value (DefValue x) :: f'
      else x :: Set_ f' name value
  end.

(** Dereferencing the pointer returned for flag [name]. *)
Definition deref (f : FlagSet) (name : string) : string :=
  match Lookup f name with
  | Some x => Value x
  | None => ""
  end.

(** [-name=value] or [--name=value] split into name and value;
    [None] for an argument that is not a flag. *)
Definition split_flag (arg : string) : option (string * option string) :=
  match strip_prefix "-" arg with
  | None => None
  | Some a1 =>
      let a := match strip_prefix "-" a1 with Some a2 => a2 | None => a1 end in
      if String.eqb a "" then None
      else
        let n := take_while (fun c => negb (Ascii.eqb c "="%char)) a in
        match drop_while (fun c => negb (Ascii.eqb c "="%char)) a with
        | String _ v => Some (n, Some v)
        | EmptyString => Some (n, None)
        end
  end.

(** [flag.Parse()] over the arguments after the program name, for a
    set of string flags: parsing stops at the first argument that is
    not a flag; an undefined flag or a missing value is an error. *)
Fixpoint Parse (f : FlagSet) (args : list string) : option FlagSet :=
  match args with
  | [] => Some f
  | arg :: rest =>
      match split_flag arg with
      | None => Some f
      | Some (n, v) =>
          match Lookup f n with
          | None => None
          | Some _ =>
              match v with
              | Some v => Parse (Set_ f n v) rest
              | None =>
                  match rest with
                  | v :: rest' => Parse (Set_ f n v) rest'
                  | [] => None
                  end
              end
          end
      end
  end.

(** [flag.String(name, value, usage)] defines a string flag whose
    current value is its default; the pointer it returns designates
    the flag's value and is modelled by the flag's name. *)
Definition String (f : FlagSet) (name value usage : string) : FlagSet :=
  mkFlag name usage value value :: f.

End flag.

(** ** The program's environment

    Everything outside the process: the command line, the external tools
    and the faults the file system can raise.  An external command is a
    function from its argument vector, its standard input and the files
    it can see to its captured standard output (or the error
    [exec.Cmd.Output] reports) and the files it leaves behind. *)

Definition files := string -> option string.

Record Env : Type := mkEnv {
  Args : list string;
  exec_Output : string -> list string -> string -> files -> result string * files;
  create_fault : string -> option error;
  write_fault : string -> string -> option (nat * error)
}.

(** What the process does to the outside, in order. *)
Inductive event : Type :=
| EvExec (name : string) (args : list string)
| EvCreate (path : string)
| EvWrite (path : string).

Record World : Type := mkWorld {
  fs : files;
  stderr : list string;
  trace : list event
}.

Definition set_fs (w : World) (f : files) : World :=
  mkWorld f (stderr w) (trace w).

Definition record_event (w : World) (ev : event) : World :=
  mkWorld (fs w) (stderr w) (trace w ++ [ev])%list.

Definition update (f : files) (path data : string) : files :=
  fun p => if String.eqb p path then Some data else f p.

(** [fmt.Fprintln(os.Stderr, "error:", err)] *)
Definition Fprintln_stderr (w : World) (e : error) : World :=
  mkWorld (fs w) (stderr w ++ [("error: " ++ Error e ++ NL)%string])%list (trace w).

(** [exec.Command(name, args...)] with standard input [stdin], then
    [Output()]. *)
Definition Command_Output (env : Env) (name : string) (args : list string)
           (stdin : string) (w : World) : result string * World :=
  let (r, f) := exec_Output env name args stdin (fs w) in
  (r, set_fs (record_event w (EvExec name args)) f).

(** [os.Create(path)]: the file is created, or truncated when it
    exists. *)
Definition os_Create (env : Env) (path : string) (w : World)
  : option error * World :=
  match create_fault env path with
  | Some e => (Some e, w)
  | None => (None, set_fs (record_event w (EvCreate path)) (update (fs w) path ""))
  end.

(** The content of a file after [data] has been written from its
    first byte on: [data], then what the file held beyond it. *)
Definition write_at_start (data old : string) : string :=
  data ++ drop (String.length data) old.

(** Writing [data] to the file opened at [path], from its first byte
    on: all of it, or, on a fault, its first [n] bytes.  The bytes the
    file holds beyond those written stay. *)
Definition file_Write (env : Env) (path data : string) (w : World)
  : option error * World :=
  let w := record_event w (EvWrite path) in
  let old := match fs w path with Some s => s | None => "" end in
  match write_fault env path data with
  | Some (n, e) =>
      (Some e, set_fs w (update (fs w) path (write_at_start (substring 0 n data) old)))
  | None => (None, set_fs w (update (fs w) path (write_at_start data old)))
  end.

(** ** The generator *)

Definition includes : string := NL ++ "#include <pdhmsg.h>" ++ NL.

(** The loop [for s.Scan() { ... }] of [getErrorDefines].  Each
    successful [Scan] consumes at least one byte, so a fuel of one more
    than the number of unread bytes is never exhausted. *)
Fixpoint scan_loop (fuel : nat) (s : bufio.Scanner) (errors : list string)
  : list string * bufio.Scanner :=
  match fuel with
  | O => (errors, s)
  | S fuel' =>
      let (more, s') := bufio.Scan s in
      if more then
        let line := bufio.Text s' in
        let matches := regexp.FindStringSubmatch pdhErrorRegex line in
        if Nat.ltb 1 (List.length matches)
        then scan_loop fuel' s' (errors ++ [nth 1 matches ""])%list
        else scan_loop fuel' s' errors
      else (errors, s')
  end.

(** The scanning part of [getErrorDefines], on the bytes [out] that the
    expander printed: the collected names, and the scanner as the loop
    leaves it. *)
Definition scanErrorDefines (out : string) : list string * bufio.Scanner :=
  scan_loop (S (String.length out)) (bufio.NewScanner out) [].

Definition getErrorDefines (env : Env) (w : World)
  : result (list string) * World :=
  let (r, w) := Command_Output env "gcc" ["-E"; "-dD"; "-"] includes w in
  match r with
  | Err e => (Err e, w)
  | Ok out =>
      let (errors, _) := scanErrorDefines out in
      (Ok errors, w)
  end.

(** [output = flag.String("output", "defs_pdh_windows.go", "output file")]:
    the command-line flag set after the package's variables are
    initialised.  [main] does not call [flag.Parse], so this is the flag
    set for the whole run. *)
Definition CommandLine : flag.FlagSet :=
  flag.String [] "output" "defs_pdh_windows.go" "output file".

(** [*output] *)
Definition output : string := flag.deref CommandLine "output".

(** [tmpl.Execute(f, p)] on the file [f] created at [path].  The
    template of this program has no action that can fail, so what
    [Execute] would have written before an execution error is left
    out. *)
Definition Execute_to (env : Env) (t : template.Template) (path : string)
           (p : TemplateParams) (w : World) : option error * World :=
  match template.Execute t p with
  | Err e => (Some e, w)
  | Ok text => file_Write env path text w
  end.

Definition writeOutput (env : Env) (p : TemplateParams) (w : World)
  : option error * World :=
  (* Create output file. *)
  let (err, w) := os_Create env output w in
  match err with
  | Some e => (Some e, w)
  | None =>
      (* defer f.Close(): the handle is released on return; the
         result of Close is discarded and has no part in the model. *)
      Execute_to env tmpl output p w
  end.

Definition gofmtOutput (env : Env) (w : World) : option error * World :=
  let (r, w) := Command_Output env "gofmt" ["-w"; output] "" w in
  match r with
  | Err e => (Some e, w)
  | Ok _ => (None, w)
  end.

(** [main]; the exit status is 0 when [main] returns and 1 after
    [os.Exit(1)]. *)
Definition main (env : Env) (w : World) : World * nat :=
  let (r, w) := getErrorDefines env w in
  match r with
  | Err e => (Fprintln_stderr w e, 1)
  | Ok errors =>
      let t := mkTemplateParams errors in
      let (err, w) := writeOutput env t w in
      match err with
      | Some e => (Fprintln_stderr w e, 1)
      | None =>
          let (err, w) := gofmtOutput env w in
          match err with
          | Some e => (Fprintln_stderr w e, 1)
          | None => (w, 0)
          end
      end
  end.

(** ** Reference definitions for the statements

    What the prose of the specification says, written directly. *)

(** The name a line carries, in the words of the specification: the
    line begins with the marker [#define ] and one blank, the maximal
    run of word characters after it begins with [PDH_] and goes on for at
    least one character more. *)
Definition capture_name (line : string) : option string :=
  match strip_prefix "#define " line with
  | Some after =>
      let name := take_while regexp.word after in
      match strip_prefix "PDH_" name with
      | Some (String _ _) => Some name
      | _ => None
      end
  | None => None
  end.

(** The lines of a text: the bytes between newlines, and a last line
    without newline when it is not empty.  The first component is the
    line that starts here, if one does. *)
Fixpoint lines_from (s : string) : option string * list string :=
  match s with
  | String c s' =>
      let (cur, rest) := lines_from s' in
      if is_newline c
      then (Some "", match cur with Some l => l :: rest | None => rest end)
      else (Some (String c (match cur with Some l => l | None => "" end)), rest)
  | EmptyString => (None, [])
  end.

Definition raw_lines (s : string) : list string :=
  let (cur, rest) := lines_from s in
  match cur with
  | Some l => l :: rest
  | None => rest
  end.

Definition text_lines (s : string) : list string := map bufio.dropCR (raw_lines s).

(** The names of the lines that match, in order, duplicates kept. *)
Fixpoint names_of (ls : list string) : list string :=
  match ls with
  | [] => []
  | l :: ls' =>
      match capture_name l with
      | Some n => n :: names_of ls'
      | None => names_of ls'
      end
  end.

Definition count_matching (ls : list string) : nat :=
  List.length (filter (fun l => match capture_name l with Some _ => true | None => false end) ls).

(** What follows the first line of a text. *)
Definition after_line (s : string) : string :=
  match snd (bufio.cut_line s) with
  | Some r => r
  | None => ""
  end.

(** What one matching step of the loop appends. *)
Definition step_errors (errors : list string) (line : string) : list string :=
  match capture_name line with
  | Some n => (errors ++ [n])%list
  | None => errors
  end.

(** The lines before the first one that does not fit the scanner's
    buffer. *)
Fixpoint fitting (ls : list string) : list string :=
  match ls with
  | [] => []
  | l :: ls' =>
      if (bufio.len l <? bufio.MaxScanTokenSize)%N then l :: fitting ls' else []
  end.

Definition all_fit (ls : list string) : bool :=
  forallb (fun l => (bufio.len l <? bufio.MaxScanTokenSize)%N) ls.

(** The pieces of the rendered text. *)
Definition header_lines : list string :=
  [ "";
    "// go run mkpdh_defs.go";
    "// MACHINE GENERATED BY THE ABOVE COMMAND; DO NOT EDIT";
    "";
    "// +build ignore";
    "";
    "package pdh";
    "";
    "/*";
    "#include <pdh.h>";
    "#include <pdhmsg.h>";
    "#cgo LDFLAGS: -lpdh";
    "*/";
    "import " ++ DQ ++ "C" ++ DQ;
    "";
    "type PdhErrno uintptr";
    "";
    "// PDH Error Codes" ].

Definition header : string := unlines header_lines ++ "const (".

(** One constant declaration: the name, bound to the C macro of the
    same name. *)
Definition const_decl (name : string) : string :=
  NL ++ TAB ++ name ++ " PdhErrno = C." ++ name.

Definition const_close : string := NL ++ ")" ++ NL.

Definition map_open : string := NL ++ "var pdhErrors = map[PdhErrno]struct{}{".

(** One entry of the membership map. *)
Definition map_entry (name : string) : string :=
  NL ++ TAB ++ name ++ ": struct{}{},".

Definition map_close : string := NL ++ "}" ++ NL.

(** The hand-written block of counter formats. *)
Definition counter_lines : list string :=
  [ "";
    "type PdhCounterFormat uint32";
    "";
    "// PDH Counter Formats";
    "const (";
    TAB ++ "// PdhFmtDouble returns data as a double-precision floating point real.";
    TAB ++ "PdhFmtDouble PdhCounterFormat = C.PDH_FMT_DOUBLE";
    TAB ++ "// PdhFmtLarge returns data as a 64-bit integer.";
    TAB ++ "PdhFmtLarge PdhCounterFormat = C.PDH_FMT_LARGE";
    TAB ++ "// PdhFmtLong returns data as a long integer.";
    TAB ++ "PdhFmtLong PdhCounterFormat = C.PDH_FMT_LONG";
    "";
    TAB ++ "// Use bitwise operators to combine these values with the counter type to scale the value.";
    "";
    "    // Do not apply the counter's default scaling factor.";
    TAB ++ "PdhFmtNoScale PdhCounterFormat = C.PDH_FMT_NOSCALE";
    TAB ++ "// Counter values greater than 100 (for example, counter values measuring";
    TAB ++ "// the processor load on multiprocessor computers) will not be reset to 100.";
    TAB ++ "// The default behavior is that counter values are capped at a value of 100.";
    TAB ++ "PdhFmtNoCap100 PdhCounterFormat = C.PDH_FMT_NOCAP100";
    TAB ++ "// Multiply the actual value by 1,000.";
    TAB ++ "PdhFmtMultiply1000 PdhCounterFormat = C.PDH_FMT_1000";
    ")" ].

Definition counter_formats : string := unlines counter_lines.

Definition rendered (errors : list string) : string :=
  header
  ++ concat_all (map const_decl errors) ++ const_close
  ++ map_open ++ concat_all (map map_entry errors) ++ map_close
  ++ counter_formats.

(** The line of a constant declaration and the line of a map entry. *)
Definition decl_line (name : string) : string :=
  TAB ++ name ++ " PdhErrno = C." ++ name.

Definition entry_line (name : string) : string :=
  TAB ++ name ++ ": struct{}{},".

(** The lines of the rendered text. *)
Definition rendered_lines (errors : list string) : list string :=
  (header_lines ++ ["const ("]
   ++ map decl_line errors
   ++ [")"; ""; "var pdhErrors = map[PdhErrno]struct{}{"]
   ++ map entry_line errors
   ++ ["}"] ++ counter_lines)%list.

Definition no_newline (s : string) : bool :=
  all_bytes (fun c => negb (is_newline c)) s.

Definition is_name (s : string) : bool := all_bytes regexp.word s.

(** The tree that [fileTemplate] parses to. *)
Definition parsed_template : template.Template :=
  [ template.TextNode header;
    template.RangeNode "$i" "$errorCode" "Errors"
      [ template.TextNode (NL ++ TAB);
        template.VariableNode "$errorCode";
        template.TextNode " PdhErrno = C.";
        template.VariableNode "$errorCode" ];
    template.TextNode (const_close ++ map_open);
    template.RangeNode "$i" "$errorCode" "Errors"
      [ template.TextNode (NL ++ TAB);
        template.VariableNode "$errorCode";
        template.TextNode ": struct{}{}," ];
    template.TextNode (map_close ++ counter_formats) ].

(** The steps of a run that reach the outside, in the order of [main]. *)
Definition steps : list event :=
  [ EvExec "gcc" ["-E"; "-dD"; "-"];
    EvCreate output;
    EvWrite output;
    EvExec "gofmt" ["-w"; output] ].

(** A name as the pattern captures it: [PDH_], then at least one more
    byte, word characters throughout. *)
Definition wellformed_name (n : string) : bool :=
  match strip_prefix "PDH_" n with
  | Some (String _ _) => is_name n
  | _ => false
  end.

(** The line [gcc -dD] prints for a macro: the marker, the name and
    what follows the name (parameters, a blank and the replacement
    text, or nothing). *)
Definition define_line (d : string * string) : string :=
  "#define " ++ fst d ++ snd d.

(** What may follow a name on its line: nothing, or text that begins
    with a byte that is not a word character; no newline. *)
Definition follows_name (rest : string) : bool :=
  String.eqb (take_while regexp.word rest) "" && no_newline rest.

Definition fits (l : string) : bool := (bufio.len l <? bufio.MaxScanTokenSize)%N.

(** Reading the generated file back: the name a declaration line or a
    map-entry line begins with, after its tab. *)
Definition declared_name (line : string) : string :=
  take_while regexp.word (drop 1 line).

Definition declared_names (text : string) : list string :=
  map declared_name (filter (contains " PdhErrno = C.") (raw_lines text)).

Definition member_names (text : string) : list string :=
  map declared_name (filter (contains ": struct{}{},") (raw_lines text)).

(** ** Sample inputs *)

(** An environment in which the expander prints [out], the formatter
    answers [fmt] and the file system raises no fault. *)
Definition env_of (args : list string) (out fmt : result string) : Env :=
  mkEnv args
        (fun name _ _ f => if String.eqb name "gcc" then (out, f) else (fmt, f))
        (fun _ => None)
        (fun _ _ => None).

Definition empty_world : World := mkWorld (fun _ => None) [] [].

Definition sample_output : string :=
  unlines
    [ "#define PDH_CSTATUS_VALID_DATA 0";
      "#define PDH_CSTATUS_NEW_DATA 1";
      "#define UNRELATED 2" ].

(** Expander output whose second line has 65536 bytes. *)
Definition long_line_output : string :=
  unlines
    [ "#define PDH_A 1";
      repeat_byte "x" (N.to_nat bufio.MaxScanTokenSize);
      "#define PDH_B 2" ].

(** * Properties *)

(** ** The pattern *)

Lemma word_or_underscore (c : ascii) :
  regexp.word c || Ascii.eqb c "_"%char = regexp.word c.
Proof.
  destruct (Ascii.eqb c "_"%char) eqn:E.
  - apply Ascii.eqb_eq in E. subst c. reflexivity.
  - apply orb_false_r.
Qed.

Lemma take_while_ext (p q : ascii -> bool) (s : string) :
  (forall c, p c = q c) -> take_while p s = take_while q s.
Proof.
  intros H. induction s as [|c s IH]; simpl; [reflexivity|].
  rewrite H, IH. reflexivity.
Qed.

Lemma take_drop_while (p : ascii -> bool) (s : string) :
  take_while p s ++ drop_while p s = s.
Proof.
  induction s as [|c s IH]; simpl; [reflexivity|].
  destruct (p c); simpl; [rewrite IH|]; reflexivity.
Qed.

Lemma strip_prefix_app (p s r : string) :
  strip_prefix p s = Some r -> s = p ++ r.
Proof.
  revert s. induction p as [|a p IH]; intros s H; simpl in *.
  - congruence.
  - destruct s as [|b s]; [discriminate|].
    destruct (Ascii.eqb a b) eqn:E; [|discriminate].
    apply Ascii.eqb_eq in E. subst b. f_equal. auto.
Qed.

Lemma strip_prefix_self (p r : string) : strip_prefix p (p ++ r) = Some r.
Proof.
  induction p as [|a p IH]; simpl; [reflexivity|].
  rewrite Ascii.eqb_refl. exact IH.
Qed.

Lemma substring_prefix (a b : string) :
  substring 0 (String.length a) (a ++ b) = a.
Proof.
  induction a as [|c a IH]; simpl.
  - destruct b; reflexivity.
  - rewrite IH. reflexivity.
Qed.

Lemma substring_skip (a b : string) (n : nat) :
  substring (String.length a) n (a ++ b) = substring 0 n b.
Proof.
  induction a as [|c a IH]; simpl; [reflexivity|exact IH].
Qed.

(** A literal matches exactly when it is a prefix of the input. *)
Lemma m_Literal (s : string) (r : regexp.Regexp) pos rest c k :
  regexp.m (regexp.Literal s r) pos rest c k =
  match strip_prefix s rest with
  | Some rest' => regexp.m r (String.length s + pos) rest' c k
  | None => None
  end.
Proof.
  revert pos rest. induction s as [|a s IH]; intros pos rest; simpl.
  - reflexivity.
  - destruct rest as [|b rest]; [reflexivity|].
    destruct (Ascii.eqb a b); [|reflexivity].
    rewrite IH. rewrite Nat.add_succ_r. reflexivity.
Qed.

(** A greedy repetition in front of a continuation that always accepts
    takes the maximal run of the class. *)
Lemma drop_while_none (p : ascii -> bool) (s : string) :
  take_while p s = "" -> drop_while p s = s.
Proof.
  destruct s as [|c s]; simpl; [reflexivity|].
  destruct (p c); [discriminate|reflexivity].
Qed.

(** A greedy repetition in front of a continuation that always accepts
    takes the maximal run of the class. *)
Lemma m_PlusClass_greedy (p : ascii -> bool) pos rest c (k : regexp.cont) :
  (forall pos' rest' c', k pos' rest' c' <> None) ->
  regexp.m (regexp.PlusClass p) pos rest c k =
  match take_while p rest with
  | EmptyString => None
  | String _ _ as w => k (String.length w + pos) (drop_while p rest) c
  end.
Proof.
  intros Hk. revert pos. induction rest as [|b rest IH]; intros pos.
  - reflexivity.
  - simpl. destruct (p b) eqn:Hb; [|reflexivity].
    simpl in IH. rewrite IH.
    destruct (take_while p rest) as [|d w] eqn:Hw.
    + rewrite (drop_while_none _ _ Hw). reflexivity.
    + replace (S (String.length w + S pos))
        with (S (String.length (String d w) + pos)) by (simpl; lia).
      destruct (k (S (String.length (String d w) + pos)) (drop_while p rest) c) eqn:Hr.
      * reflexivity.
      * exfalso. eapply Hk. exact Hr.
Qed.

(** The anchor fails everywhere but at the start of the text. *)
Lemma search_anchored (r : regexp.Regexp) (pos : nat) (rest : string) :
  regexp.search (regexp.Cat regexp.BeginText r) (S pos) rest = None.
Proof.
  revert pos. induction rest as [|b rest IH]; intros pos; simpl.
  - reflexivity.
  - apply IH.
Qed.

Lemma search_anchored_start (r : regexp.Regexp) (s : string) :
  regexp.search (regexp.Cat regexp.BeginText r) 0 s =
  regexp.m r 0 s [] (fun pos' _ c => Some ((0, (0, pos')) :: c)).
Proof.
  destruct s as [|b s]; simpl.
  - destruct (regexp.m r 0 "" [] _); reflexivity.
  - destruct (regexp.m r 0 (String b s) [] _); [reflexivity|].
    apply search_anchored.
Qed.

(** What the pattern finds in a line, in terms of the line's text. *)
Lemma FindStringSubmatch_pdhErrorRegex (line : string) :
  regexp.FindStringSubmatch pdhErrorRegex line =
  match capture_name line with
  | Some name => [("#define " ++ name)%string; name]
  | None => []
  end.
Proof.
  unfold regexp.FindStringSubmatch, pdhErrorRegex, capture_name.
  rewrite search_anchored_start, m_Literal.
  destruct (strip_prefix "#define " line) as [after|] eqn:Hdef; [|reflexivity].
  apply strip_prefix_app in Hdef. subst line.
  cbn [regexp.m]. rewrite m_Literal.
  destruct (strip_prefix "PDH_" after) as [rest'|] eqn:Hpdh.
  - apply strip_prefix_app in Hpdh. subst after.
    rewrite m_PlusClass_greedy by discriminate.
    rewrite (take_while_ext _ regexp.word) by apply word_or_underscore.
    change (take_while regexp.word ("PDH_" ++ rest'))
      with ("PDH_" ++ take_while regexp.word rest').
    rewrite strip_prefix_self.
    pose proof (take_drop_while regexp.word rest') as Hsplit.
    destruct (take_while regexp.word rest') as [|d w] eqn:Hw; [reflexivity|].
    set (name := String d w) in *.
    rewrite <- Hsplit.
    cbn [regexp.NumSubexp regexp.Literal Nat.max seq map regexp.lookup Nat.eqb].
    unfold slice. f_equal; [|f_equal].
    + replace (String.length name + (String.length "PDH_" + (String.length "#define " + 0)) - 0)
        with (String.length ("#define " ++ "PDH_" ++ name)).
      * change ("#define " ++ "PDH_" ++ name ++ drop_while regexp.word rest')
          with (("#define " ++ "PDH_" ++ name) ++ drop_while regexp.word rest').
        apply substring_prefix.
      * simpl. lia.
    + change (String.length "#define " + 0) with (String.length "#define ").
      rewrite substring_skip.
      replace (String.length name + (String.length "PDH_" + String.length "#define ")
               - String.length "#define ")
        with (String.length ("PDH_" ++ name)) by (simpl; lia).
      change ("PDH_" ++ name ++ drop_while regexp.word rest')
        with (("PDH_" ++ name) ++ drop_while regexp.word rest').
      apply substring_prefix.
  - destruct (strip_prefix "PDH_" (take_while regexp.word after)) as [r|] eqn:Hn;
      [|reflexivity].
    apply strip_prefix_app in Hn.
    pose proof (take_drop_while regexp.word after) as Hsplit.
    rewrite Hn in Hsplit. rewrite <- Hsplit in Hpdh.
    change (("PDH_" ++ r) ++ drop_while regexp.word after)
      with ("PDH_" ++ r ++ drop_while regexp.word after) in Hpdh.
    rewrite strip_prefix_self in Hpdh. discriminate.
Qed.

(** ** The scanner *)

Lemma lines_from_nonempty (c : ascii) (s : string) :
  exists l rest, lines_from (String c s) = (Some l, rest).
Proof.
  simpl. destruct (lines_from s) as [cur rest].
  destruct (is_newline c); eauto.
Qed.

Lemma lines_from_cut (c : ascii) (s : string) :
  lines_from (String c s) =
  (Some (fst (bufio.cut_line (String c s))), raw_lines (after_line (String c s))).
Proof.
  revert c. induction s as [|d s IH]; intros c.
  - unfold after_line. simpl. destruct (is_newline c); reflexivity.
  - specialize (IH d). remember (String d s) as S eqn:HS.
    unfold after_line in *. simpl.
    rewrite IH. destruct (bufio.cut_line S) as [line r]. simpl.
    destruct (is_newline c); simpl.
    + unfold raw_lines. rewrite IH. reflexivity.
    + reflexivity.
Qed.

(** The first line and the lines of what follows it. *)
Lemma raw_lines_cut (c : ascii) (s : string) :
  raw_lines (String c s) =
  fst (bufio.cut_line (String c s)) :: raw_lines (after_line (String c s)).
Proof.
  unfold raw_lines at 1. rewrite lines_from_cut. reflexivity.
Qed.

Lemma cut_line_shorter (s : string) (r : string) :
  snd (bufio.cut_line s) = Some r -> String.length r < String.length s.
Proof.
  revert r. induction s as [|c s IH]; intros r; simpl.
  - discriminate.
  - destruct (is_newline c); simpl.
    + intros H. injection H as <-. lia.
    + destruct (bufio.cut_line s) as [line rest]. simpl in *.
      intros H. specialize (IH r H). lia.
Qed.

Lemma names_of_step (errors : list string) (l : string) (ls : list string) :
  (errors ++ names_of (l :: ls))%list = (step_errors errors l ++ names_of ls)%list.
Proof.
  unfold step_errors. simpl. destruct (capture_name l).
  - rewrite <- app_assoc. reflexivity.
  - reflexivity.
Qed.

(** The loop of [getErrorDefines], with enough fuel: it collects the
    names of the lines the scanner delivers, which are the lines before
    the first one that does not fit the buffer, and leaves the scanner
    with [ErrTooLong] when there is such a line. *)
Lemma scan_loop_spec (fuel : nat) (s txt : string) (errors : list string) :
  String.length s < fuel ->
  let r := scan_loop fuel (bufio.mkScanner s txt None bufio.MaxScanTokenSize) errors in
  fst r = (errors ++ names_of (map bufio.dropCR (fitting (raw_lines s))))%list
  /\ bufio.Err (snd r) =
     if all_fit (raw_lines s) then None else Some ErrTooLong.
Proof.
  revert s txt errors.
  induction fuel as [|fuel IH]; intros s txt errors Hlen; [lia|].
  destruct s as [|c s].
  - simpl. rewrite app_nil_r. split; reflexivity.
  - cbn [scan_loop]. unfold bufio.Scan.
    cbn [bufio.err bufio.src bufio.maxTokenSize].
    rewrite raw_lines_cut. unfold after_line.
    pose proof (cut_line_shorter (String c s)) as Hshort.
    destruct (bufio.cut_line (String c s)) as [line rest].
    cbn [fst snd fitting all_fit forallb] in *.
    destruct (bufio.len line <? bufio.MaxScanTokenSize)%N.
    + cbn [bufio.Text bufio.text map].
      rewrite FindStringSubmatch_pdhErrorRegex, names_of_step.
      assert (Hrest : String.length (match rest with Some r => r | None => "" end) < fuel).
      { destruct rest as [r|]; [specialize (Hshort r eq_refl)|]; simpl in *; lia. }
      unfold after_line. cbn [snd].
      unfold step_errors.
      destruct (capture_name (bufio.dropCR line)) as [n|]; cbn [List.length Nat.ltb Nat.leb nth];
        apply IH; exact Hrest.
    + cbn [fst snd bufio.Err bufio.err map names_of].
      rewrite app_nil_r. split; reflexivity.
Qed.

(** The scanning part of [getErrorDefines] on any expander output. *)
Lemma scanErrorDefines_spec (out : string) :
  fst (scanErrorDefines out) = names_of (map bufio.dropCR (fitting (raw_lines out)))
  /\ bufio.Err (snd (scanErrorDefines out)) =
     if all_fit (raw_lines out) then None else Some ErrTooLong.
Proof.
  unfold scanErrorDefines, bufio.NewScanner.
  apply (scan_loop_spec (S (String.length out)) out "" []). lia.
Qed.

Lemma fitting_all (ls : list string) : all_fit ls = true -> fitting ls = ls.
Proof.
  induction ls as [|l ls IH]; simpl; [reflexivity|].
  destruct (bufio.len l <? bufio.MaxScanTokenSize)%N; simpl; [|discriminate].
  intros H. rewrite IH by exact H. reflexivity.
Qed.

Lemma names_of_length (ls : list string) :
  List.length (names_of ls) = count_matching ls.
Proof.
  unfold count_matching. induction ls as [|l ls IH]; simpl; [reflexivity|].
  destruct (capture_name l); simpl; rewrite IH; reflexivity.
Qed.

(** When every line of the expander output fits the scanner's buffer,
    the scan reaches the end of the output and the list holds exactly
    the names of the matching lines, in order. *)
Lemma scanErrorDefines_complete (out : string) :
  all_fit (raw_lines out) = true ->
  fst (scanErrorDefines out) = names_of (text_lines out)
  /\ List.length (fst (scanErrorDefines out)) = count_matching (text_lines out)
  /\ bufio.Err (snd (scanErrorDefines out)) = None.
Proof.
  intros Hfit. destruct (scanErrorDefines_spec out) as [H1 H2].
  rewrite Hfit in H2. rewrite (fitting_all _ Hfit) in H1.
  unfold text_lines. rewrite H1, names_of_length. auto.
Qed.

(** [getErrorDefines] fails only when the expander command fails; the
    scanner's error is never looked at. *)
Lemma getErrorDefines_result (env : Env) (w : World) :
  fst (getErrorDefines env w) =
  match fst (exec_Output env "gcc" ["-E"; "-dD"; "-"] includes (fs w)) with
  | Ok out => Ok (fst (scanErrorDefines out))
  | Err e => Err e
  end.
Proof.
  unfold getErrorDefines, Command_Output.
  destruct (exec_Output env "gcc" ["-E"; "-dD"; "-"] includes (fs w)) as [r f].
  cbn [fst]. destruct r as [out|e]; [|reflexivity].
  destruct (scanErrorDefines out). reflexivity.
Qed.

(** ** The template *)

Lemma app_empty_r (s : string) : s ++ "" = s.
Proof. induction s as [|c s IH]; simpl; [|rewrite IH]; reflexivity. Qed.

Lemma app_assoc_s (a b c : string) : (a ++ b) ++ c = a ++ b ++ c.
Proof. induction a as [|x a IH]; simpl; [|rewrite IH]; reflexivity. Qed.

(** [fileTemplate] parses, so [template.Must] does not panic. *)
Lemma tmpl_parses : tmpl = parsed_template.
Proof. vm_compute. reflexivity. Qed.

Section Bodies.

Variable dot : TemplateParams.
Variable vars : list (string * template.value).

Lemma body_const_decl (x : string) (k : nat) :
  template.seq_nodes
    (template.exec dot (("$errorCode", template.VString x)
                        :: ("$i", template.VInt k) :: vars))
    [ template.TextNode (NL ++ TAB);
      template.VariableNode "$errorCode";
      template.TextNode " PdhErrno = C.";
      template.VariableNode "$errorCode" ]
  = Ok (const_decl x).
Proof.
  unfold const_decl. simpl. rewrite app_empty_r. reflexivity.
Qed.

Lemma body_map_entry (x : string) (k : nat) :
  template.seq_nodes
    (template.exec dot (("$errorCode", template.VString x)
                        :: ("$i", template.VInt k) :: vars))
    [ template.TextNode (NL ++ TAB);
      template.VariableNode "$errorCode";
      template.TextNode ": struct{}{}," ]
  = Ok (map_entry x).
Proof.
  unfold map_entry. simpl. reflexivity.
Qed.

(** A [range] whose body writes [f x] for the element [x] writes the
    texts of the elements one after the other. *)
Lemma each_concat (body : string -> nat -> result string) (f : string -> string)
      (l : list string) (k : nat) :
  (forall x k, body x k = Ok (f x)) ->
  template.each body l k = Ok (concat_all (map f l)).
Proof.
  intros Hbody. revert k.
  induction l as [|x l IH]; intros k; cbn [template.each map concat_all].
  - reflexivity.
  - rewrite Hbody, IH. reflexivity.
Qed.

End Bodies.

Lemma exec_range (dot : TemplateParams) vars i e f body (l : list string) :
  template.field dot f = Some (template.VStrings l) ->
  template.exec dot vars (template.RangeNode i e f body) =
  template.each
    (fun x k =>
       template.seq_nodes
         (template.exec dot ((e, template.VString x) :: (i, template.VInt k) :: vars))
         body)
    l 0.
Proof. intros H. cbn [template.exec]. rewrite H. reflexivity. Qed.

Lemma seq_nodes_cons (run : template.Node -> result string) n ns :
  template.seq_nodes run (n :: ns) =
  template.bind (run n)
    (fun a => template.bind (template.seq_nodes run ns) (fun b => Ok (a ++ b))).
Proof. reflexivity. Qed.

(** The text the template writes for a list of names. *)
Lemma Execute_rendered (errors : list string) :
  template.Execute parsed_template (mkTemplateParams errors) = Ok (rendered errors).
Proof.
  unfold template.Execute, template.exec_nodes, parsed_template, rendered.
  repeat rewrite seq_nodes_cons.
  rewrite !(exec_range _ _ _ _ _ _ errors) by reflexivity.
  rewrite (each_concat _ const_decl) by (intros; apply body_const_decl).
  rewrite (each_concat _ map_entry) by (intros; apply body_map_entry).
  cbn [template.exec template.bind template.seq_nodes].
  rewrite app_empty_r, !app_assoc_s. reflexivity.
Qed.

(** The renderer never fails: whatever the list, the template writes
    a text. *)
Lemma tmpl_Execute (errors : list string) :
  template.Execute tmpl (mkTemplateParams errors) = Ok (rendered errors).
Proof. rewrite tmpl_parses. apply Execute_rendered. Qed.

(** ** Writing and formatting *)

Lemma update_same (f : files) (path data : string) :
  update f path data path = Some data.
Proof. unfold update. rewrite String.eqb_refl. reflexivity. Qed.

Lemma drop_empty (n : nat) : drop n "" = "".
Proof. destruct n; reflexivity. Qed.

Lemma write_at_start_empty (data : string) : write_at_start data "" = data.
Proof. unfold write_at_start. rewrite drop_empty. apply app_empty_r. Qed.

(** [writeOutput], step by step: the file is created empty, then the
    rendered text is written into it. *)
Lemma writeOutput_unfold (env : Env) (p : TemplateParams) (w : World) :
  writeOutput env p w =
  match create_fault env output with
  | Some e => (Some e, w)
  | None =>
      let w1 := set_fs (record_event w (EvCreate output)) (update (fs w) output "") in
      let w2 := record_event w1 (EvWrite output) in
      match write_fault env output (rendered (Errors p)) with
      | Some (n, e) =>
          (Some e,
           set_fs w2 (update (fs w2) output (substring 0 n (rendered (Errors p)))))
      | None => (None, set_fs w2 (update (fs w2) output (rendered (Errors p))))
      end
  end.
Proof.
  unfold writeOutput, os_Create. destruct (create_fault env output); [reflexivity|].
  unfold Execute_to, file_Write. destruct p as [errors]. rewrite tmpl_Execute.
  cbn [fs set_fs record_event Errors]. rewrite update_same.
  destruct (write_fault env output (rendered errors)) as [[n e]|];
    rewrite write_at_start_empty; reflexivity.
Qed.

(** A successful [writeOutput] leaves the whole rendered text in the
    output file, whatever the file held before. *)
Lemma writeOutput_ok (env : Env) (p : TemplateParams) (w w' : World) :
  writeOutput env p w = (None, w') ->
  fs w' output = Some (rendered (Errors p)).
Proof.
  rewrite writeOutput_unfold.
  destruct (create_fault env output); [discriminate|]. cbv zeta.
  destruct (write_fault env output (rendered (Errors p))) as [[n e]|]; [discriminate|].
  intros H. injection H as <-. cbn [fs set_fs]. apply update_same.
Qed.

(** The command line is never read: two runs that differ only in their
    arguments do the same. *)
Lemma main_ignores_Args (a1 a2 : list string) ex cf wf (w : World) :
  main (mkEnv a1 ex cf wf) w = main (mkEnv a2 ex cf wf) w.
Proof. reflexivity. Qed.

(** The ways a run can end: the first failing call prints its error and
    exits with status 1; with no failing call the status is 0 and
    nothing is printed. *)
Lemma main_outcomes (env : Env) (w : World) :
  (exists e w1,
      getErrorDefines env w = (Err e, w1)
      /\ main env w = (Fprintln_stderr w1 e, 1))
  \/ (exists errors w1 e w2,
         getErrorDefines env w = (Ok errors, w1)
         /\ writeOutput env (mkTemplateParams errors) w1 = (Some e, w2)
         /\ main env w = (Fprintln_stderr w2 e, 1))
  \/ (exists errors w1 w2 e w3,
         getErrorDefines env w = (Ok errors, w1)
         /\ writeOutput env (mkTemplateParams errors) w1 = (None, w2)
         /\ gofmtOutput env w2 = (Some e, w3)
         /\ main env w = (Fprintln_stderr w3 e, 1))
  \/ (exists errors w1 w2 w3,
         getErrorDefines env w = (Ok errors, w1)
         /\ writeOutput env (mkTemplateParams errors) w1 = (None, w2)
         /\ gofmtOutput env w2 = (None, w3)
         /\ main env w = (w3, 0)).
Proof.
  unfold main.
  destruct (getErrorDefines env w) as [[errors|e] w1].
  - destruct (writeOutput env (mkTemplateParams errors) w1)
      as [[e|] w2] eqn:Hw.
    + right. left. exists errors, w1, e, w2. auto.
    + destruct (gofmtOutput env w2) as [[e|] w3] eqn:Hf.
      * right. right. left. exists errors, w1, w2, e, w3. auto.
      * right. right. right. exists errors, w1, w2, w3. auto.
  - left. exists e, w1. auto.
Qed.

(** The exit status is 0 or 1, and it is 1 exactly when one more line
    has been written to the error stream. *)
Lemma main_exit_status (env : Env) (w : World) :
  (snd (main env w) = 0 /\ stderr (fst (main env w)) = stderr w)
  \/ (snd (main env w) = 1
      /\ exists e, stderr (fst (main env w))
                   = (stderr w ++ [("error: " ++ Error e ++ NL)%string])%list).
Proof.
  assert (Hged : forall r w1, getErrorDefines env w = (r, w1) -> stderr w1 = stderr w).
  { unfold getErrorDefines, Command_Output. intros r w1.
    destruct (exec_Output env "gcc" ["-E"; "-dD"; "-"] includes (fs w)) as [o f].
    destruct o as [out|e].
    - destruct (scanErrorDefines out). intros H. injection H as _ <-. reflexivity.
    - intros H. injection H as _ <-. reflexivity. }
  assert (Hwo : forall p w1 r w2,
             writeOutput env p w1 = (r, w2) -> stderr w2 = stderr w1).
  { unfold writeOutput, os_Create, Execute_to, file_Write. intros p w1 r w2.
    destruct (create_fault env output).
    - intros H. injection H as _ <-. reflexivity.
    - destruct (template.Execute tmpl p) as [text|e].
      + destruct (write_fault env output text) as [[n e]|];
          intros H; injection H as _ <-; reflexivity.
      + intros H. injection H as _ <-. reflexivity. }
  assert (Hfo : forall w2 r w3, gofmtOutput env w2 = (r, w3) -> stderr w3 = stderr w2).
  { unfold gofmtOutput, Command_Output. intros w2 r w3.
    destruct (exec_Output env "gofmt" ["-w"; output] "" (fs w2)) as [o f].
    destruct o; intros H; injection H as _ <-; reflexivity. }
  destruct (main_outcomes env w)
    as [(e & w1 & H1 & Hm)
       |[(errors & w1 & e & w2 & H1 & H2 & Hm)
        |[(errors & w1 & w2 & e & w3 & H1 & H2 & H3 & Hm)
         |(errors & w1 & w2 & w3 & H1 & H2 & H3 & Hm)]]];
    rewrite Hm; cbn [fst snd Fprintln_stderr stderr].
  - right. split; [reflexivity|]. exists e. rewrite (Hged _ _ H1). reflexivity.
  - right. split; [reflexivity|]. exists e.
    rewrite (Hwo _ _ _ _ H2), (Hged _ _ H1). reflexivity.
  - right. split; [reflexivity|]. exists e.
    rewrite (Hfo _ _ _ H3), (Hwo _ _ _ _ H2), (Hged _ _ H1). reflexivity.
  - left. split; [reflexivity|].
    rewrite (Hfo _ _ _ H3), (Hwo _ _ _ _ H2), (Hged _ _ H1). reflexivity.
Qed.

(** [main], step by step, in terms of the environment. *)
Lemma main_unfold (env : Env) (w : World) :
  main env w =
  let (r, f1) := exec_Output env "gcc" ["-E"; "-dD"; "-"] includes (fs w) in
  let w1 := mkWorld f1 (stderr w) (trace w ++ [EvExec "gcc" ["-E"; "-dD"; "-"]])%list in
  match r with
  | Err e => (Fprintln_stderr w1 e, 1)
  | Ok out =>
      let text := rendered (fst (scanErrorDefines out)) in
      match create_fault env output with
      | Some e => (Fprintln_stderr w1 e, 1)
      | None =>
          let t3 := (trace w ++ firstn 3 steps)%list in
          match write_fault env output text with
          | Some (n, e) =>
              (Fprintln_stderr
                 (mkWorld (update (update f1 output "") output (substring 0 n text))
                          (stderr w) t3) e, 1)
          | None =>
              let f2 := update (update f1 output "") output text in
              let (r', f3) := exec_Output env "gofmt" ["-w"; output] "" f2 in
              let w3 := mkWorld f3 (stderr w) (trace w ++ steps)%list in
              match r' with
              | Err e => (Fprintln_stderr w3 e, 1)
              | Ok _ => (w3, 0)
              end
          end
      end
  end.
Proof.
  unfold main, getErrorDefines, Command_Output.
  destruct (exec_Output env "gcc" ["-E"; "-dD"; "-"] includes (fs w)) as [[out|e] f1];
    [|reflexivity].
  destruct (scanErrorDefines out) as [errors s] eqn:Hs. cbn [fst].
  rewrite writeOutput_unfold. cbn [Errors].
  destruct (create_fault env output); [reflexivity|]. cbv zeta.
  destruct (write_fault env output (rendered errors)) as [[n e]|].
  - unfold set_fs, record_event, steps. cbn [fs stderr trace firstn].
    rewrite <- !app_assoc. reflexivity.
  - unfold gofmtOutput, Command_Output, set_fs, record_event, steps.
    cbn [fs stderr trace].
    destruct (exec_Output env "gofmt" ["-w"; output] "" _) as [[o|e] f3];
      cbn [fs stderr trace]; rewrite <- !app_assoc; reflexivity.
Qed.

(** ** The steps of a run and captured names *)

(** Each step runs at most once and in order: what a run does is a
    prefix of [steps], the whole of it when the exit status is 0. *)
Lemma main_trace (env : Env) (w : World) :
  exists n,
    trace (fst (main env w)) = (trace w ++ firstn n steps)%list
    /\ (snd (main env w) = 0 -> n = 4).
Proof.
  unfold main, getErrorDefines, writeOutput, gofmtOutput, Command_Output,
    os_Create, Execute_to, file_Write.
  destruct (exec_Output env "gcc" ["-E"; "-dD"; "-"] includes (fs w)) as [[out|e] f1];
    [|exists 1; split; [reflexivity|discriminate]].
  destruct (scanErrorDefines out) as [errors s].
  destruct (create_fault env output);
    [exists 1; split; [reflexivity|discriminate]|].
  rewrite tmpl_Execute.
  destruct (write_fault env output (rendered errors)) as [[k e]|];
    [exists 3; split; [cbn; rewrite <- !app_assoc; reflexivity|discriminate]|].
  cbn [fs set_fs record_event].
  destruct (exec_Output env "gofmt" ["-w"; output] "" _) as [[o|e] f3];
    exists 4; (split; [cbn; rewrite <- !app_assoc; reflexivity|reflexivity]).
Qed.

Lemma all_bytes_take_while (p : ascii -> bool) (s : string) :
  all_bytes p (take_while p s) = true.
Proof.
  induction s as [|c s IH]; simpl; [reflexivity|].
  destruct (p c) eqn:E; simpl; [rewrite E, IH|]; reflexivity.
Qed.

Lemma take_while_drop_while (p : ascii -> bool) (s : string) :
  take_while p (drop_while p s) = "".
Proof.
  induction s as [|c s IH]; simpl; [reflexivity|].
  destruct (p c) eqn:E; simpl; [exact IH|rewrite E; reflexivity].
Qed.

(** What a captured name says about its line. *)
Lemma capture_name_inv (line name : string) :
  capture_name line = Some name ->
  exists more rest,
    line = "#define " ++ name ++ rest
    /\ name = "PDH_" ++ more
    /\ more <> ""
    /\ all_bytes regexp.word name = true
    /\ take_while regexp.word rest = "".
Proof.
  unfold capture_name.
  destruct (strip_prefix "#define " line) as [after|] eqn:Hdef; [|discriminate].
  apply strip_prefix_app in Hdef.
  destruct (strip_prefix "PDH_" (take_while regexp.word after)) as [more|] eqn:Hpdh;
    [|discriminate].
  apply strip_prefix_app in Hpdh.
  destruct more as [|c more]; [discriminate|].
  intros H. injection H as <-.
  exists (String c more), (drop_while regexp.word after).
  split; [|split; [|split; [|split]]].
  - rewrite take_drop_while. exact Hdef.
  - exact Hpdh.
  - discriminate.
  - apply all_bytes_take_while.
  - apply take_while_drop_while.
Qed.

Lemma capture_name_first_byte (c : ascii) (line : string) :
  Ascii.eqb c "#"%char = false -> capture_name (String c line) = None.
Proof.
  intros H. unfold capture_name. cbn [strip_prefix].
  rewrite Ascii.eqb_sym, H. reflexivity.
Qed.

(** ** The lines of the rendered text *)

Lemma unlines_cons (l : string) (ls : list string) :
  unlines (l :: ls) = l ++ NL ++ unlines ls.
Proof. unfold unlines. cbn [map concat_all]. apply app_assoc_s. Qed.

Lemma unlines_app (l1 l2 : list string) :
  unlines (l1 ++ l2) = unlines l1 ++ unlines l2.
Proof.
  induction l1 as [|l l1 IH]; [reflexivity|].
  cbn [app]. rewrite !unlines_cons, IH, !app_assoc_s. reflexivity.
Qed.

(** Texts that each begin with a newline, after an unfinished line,
    are so many finished lines. *)
Lemma newline_first (f : string -> string) (l : list string) (a rest : string) :
  a ++ concat_all (map (fun e => NL ++ f e) l) ++ NL ++ rest
  = unlines (a :: map f l) ++ rest.
Proof.
  revert a. induction l as [|e l IH]; intros a.
  - cbn [map concat_all]. rewrite unlines_cons. unfold unlines. cbn [map concat_all].
    rewrite !app_assoc_s. reflexivity.
  - cbn [map concat_all]. rewrite unlines_cons.
    rewrite !app_assoc_s. rewrite IH. reflexivity.
Qed.

Lemma rendered_unlines (errors : list string) :
  rendered errors = unlines (rendered_lines errors).
Proof.
  unfold rendered, rendered_lines, header, const_close, map_open, map_close,
    counter_formats.
  rewrite !unlines_app, !app_assoc_s.
  f_equal.
  change (map const_decl errors) with (map (fun e => NL ++ decl_line e) errors).
  rewrite (newline_first decl_line errors "const (").
  rewrite (unlines_cons "const ("), !app_assoc_s.
  change (unlines ["const ("]) with ("const (" ++ NL).
  rewrite !app_assoc_s. do 3 f_equal.
  change (unlines [")"; ""; "var pdhErrors = map[PdhErrno]struct{}{"])
    with (")" ++ NL ++ NL ++ "var pdhErrors = map[PdhErrno]struct{}{" ++ NL).
  rewrite !app_assoc_s. do 3 f_equal.
  change (map map_entry errors) with (map (fun e => NL ++ entry_line e) errors).
  rewrite (newline_first entry_line errors "var pdhErrors = map[PdhErrno]struct{}{").
  rewrite unlines_cons, !app_assoc_s. reflexivity.
Qed.

Lemma lines_from_line (l b : string) :
  no_newline l = true ->
  lines_from (l ++ NL ++ b) = (Some l, raw_lines b).
Proof.
  unfold no_newline. induction l as [|c l IH]; intros H.
  - change ("" ++ NL ++ b) with (String (byte_of 10) b).
    cbn [lines_from]. unfold raw_lines.
    destruct (lines_from b) as [cur rest]. reflexivity.
  - cbn [all_bytes] in H. apply andb_true_iff in H. destruct H as [Hc Hl].
    cbn [append lines_from]. rewrite (IH Hl).
    apply negb_true_iff in Hc. rewrite Hc. reflexivity.
Qed.

(** Lines without newline, each followed by one, are the lines of the
    text. *)
Lemma raw_lines_unlines (ls : list string) :
  forallb no_newline ls = true -> raw_lines (unlines ls) = ls.
Proof.
  induction ls as [|l ls IH]; intros H.
  - reflexivity.
  - cbn [forallb] in H. apply andb_true_iff in H. destruct H as [Hl Hls].
    rewrite unlines_cons. unfold raw_lines at 1.
    rewrite (lines_from_line _ _ Hl). rewrite (IH Hls). reflexivity.
Qed.

Lemma all_bytes_app (p : ascii -> bool) (a b : string) :
  all_bytes p (a ++ b) = all_bytes p a && all_bytes p b.
Proof.
  induction a as [|c a IH]; simpl; [reflexivity|].
  rewrite IH. apply andb_assoc.
Qed.

Lemma all_bytes_impl (p q : ascii -> bool) (s : string) :
  (forall c, p c = true -> q c = true) ->
  all_bytes p s = true -> all_bytes q s = true.
Proof.
  intros Hpq. induction s as [|c s IH]; simpl; [reflexivity|].
  intros H. apply andb_true_iff in H. destruct H as [Hc Hs].
  rewrite (Hpq _ Hc), (IH Hs). reflexivity.
Qed.

Lemma word_not_newline (c : ascii) :
  regexp.word c = true -> negb (is_newline c) = true.
Proof.
  intros H. unfold is_newline. destruct (Ascii.eqb c (byte_of 10)) eqn:E.
  - apply Ascii.eqb_eq in E. subst c. discriminate H.
  - reflexivity.
Qed.

Lemma is_name_no_newline (e : string) : is_name e = true -> no_newline e = true.
Proof. apply all_bytes_impl. exact word_not_newline. Qed.

Lemma contains_eq (needle hay : string) :
  contains needle hay =
  match strip_prefix needle hay with
  | Some _ => true
  | None =>
      match hay with
      | String _ hay' => contains needle hay'
      | EmptyString => false
      end
  end.
Proof. destruct hay; reflexivity. Qed.

Lemma contains_mid (needle a b : string) : contains needle (a ++ needle ++ b) = true.
Proof.
  induction a as [|c a IH].
  - cbn [append]. rewrite contains_eq, strip_prefix_self. reflexivity.
  - cbn [append]. rewrite contains_eq, IH.
    destruct (strip_prefix needle (String c (a ++ needle ++ b))); reflexivity.
Qed.

(** A needle that begins with a byte that is not a word character does
    not begin inside a name. *)
Lemma contains_after_name (c0 : ascii) (needle e s : string) :
  regexp.word c0 = false ->
  is_name e = true ->
  contains (String c0 needle) (e ++ s) = contains (String c0 needle) s.
Proof.
  intros Hc0. unfold is_name. induction e as [|x e IH]; intros He.
  - reflexivity.
  - cbn [all_bytes] in He. apply andb_true_iff in He. destruct He as [Hx He].
    cbn [append]. rewrite contains_eq. cbn [strip_prefix].
    destruct (Ascii.eqb c0 x) eqn:E.
    + apply Ascii.eqb_eq in E. subst x. congruence.
    + apply (IH He).
Qed.

Lemma decl_line_is_decl (e : string) : contains " PdhErrno = C." (decl_line e) = true.
Proof.
  unfold decl_line.
  change (TAB ++ e ++ " PdhErrno = C." ++ e)
    with (String (byte_of 9) (e ++ " PdhErrno = C." ++ e)).
  rewrite contains_eq. cbn [strip_prefix].
  change (Ascii.eqb " " (byte_of 9)) with false. cbv iota.
  apply contains_mid.
Qed.

Lemma entry_line_is_entry (e : string) : contains ": struct{}{}," (entry_line e) = true.
Proof.
  unfold entry_line.
  change (TAB ++ e ++ ": struct{}{},")
    with (String (byte_of 9) (e ++ ": struct{}{}," ++ "")).
  rewrite contains_eq. cbn [strip_prefix].
  change (Ascii.eqb ":" (byte_of 9)) with false. cbv iota.
  apply contains_mid.
Qed.

Lemma entry_line_not_decl (e : string) :
  is_name e = true -> contains " PdhErrno = C." (entry_line e) = false.
Proof.
  intros He. unfold entry_line.
  change (TAB ++ e ++ ": struct{}{},") with (String (byte_of 9) (e ++ ": struct{}{},")).
  rewrite contains_eq. cbn [strip_prefix].
  change (Ascii.eqb " " (byte_of 9)) with false. cbv iota.
  rewrite contains_after_name by (reflexivity || exact He).
  reflexivity.
Qed.

Lemma name_not_entry (e : string) :
  is_name e = true -> contains ": struct{}{}," e = false.
Proof.
  intros He. rewrite <- (app_empty_r e).
  rewrite contains_after_name by (reflexivity || exact He).
  reflexivity.
Qed.

Lemma decl_line_not_entry (e : string) :
  is_name e = true -> contains ": struct{}{}," (decl_line e) = false.
Proof.
  intros He. unfold decl_line.
  change (TAB ++ e ++ " PdhErrno = C." ++ e)
    with (String (byte_of 9) (e ++ " PdhErrno = C." ++ e)).
  rewrite contains_eq. cbn [strip_prefix].
  change (Ascii.eqb ":" (byte_of 9)) with false. cbv iota.
  rewrite contains_after_name by (reflexivity || exact He).
  cbn [append].
  repeat (rewrite contains_eq; cbn [strip_prefix];
          match goal with
          | |- context [Ascii.eqb ?a ?b] =>
              let v := eval vm_compute in (Ascii.eqb a b) in
              change (Ascii.eqb a b) with v
          end; cbv iota).
  apply name_not_entry. exact He.
Qed.

Lemma decl_line_no_newline (e : string) :
  is_name e = true -> no_newline (decl_line e) = true.
Proof.
  intros He. apply is_name_no_newline in He.
  unfold decl_line, no_newline in *. rewrite !all_bytes_app, He. reflexivity.
Qed.

Lemma entry_line_no_newline (e : string) :
  is_name e = true -> no_newline (entry_line e) = true.
Proof.
  intros He. apply is_name_no_newline in He.
  unfold entry_line, no_newline in *. rewrite !all_bytes_app, He. reflexivity.
Qed.

Lemma forallb_map_names (p : string -> bool) (f : string -> string) (l : list string) :
  (forall e, is_name e = true -> p (f e) = true) ->
  forallb is_name l = true -> forallb p (map f l) = true.
Proof.
  intros Hp. induction l as [|e l IH]; simpl; [reflexivity|].
  intros H. apply andb_true_iff in H. destruct H as [He Hl].
  rewrite (Hp _ He), (IH Hl). reflexivity.
Qed.

Lemma filter_map_all (p : string -> bool) (f : string -> string) (l : list string) :
  (forall e, is_name e = true -> p (f e) = true) ->
  forallb is_name l = true -> filter p (map f l) = map f l.
Proof.
  intros Hp. induction l as [|e l IH]; simpl; [reflexivity|].
  intros H. apply andb_true_iff in H. destruct H as [He Hl].
  rewrite (Hp _ He), (IH Hl). reflexivity.
Qed.

Lemma filter_map_none (p : string -> bool) (f : string -> string) (l : list string) :
  (forall e, is_name e = true -> p (f e) = false) ->
  forallb is_name l = true -> filter p (map f l) = [].
Proof.
  intros Hp. induction l as [|e l IH]; simpl; [reflexivity|].
  intros H. apply andb_true_iff in H. destruct H as [He Hl].
  rewrite (Hp _ He), (IH Hl). reflexivity.
Qed.

(** For names made of word characters, the lines of the rendered text
    are [rendered_lines]; those that hold a constant declaration are one
    per name, in order, and so are those that hold a map entry. *)
Lemma rendered_lines_spec (errors : list string) :
  forallb is_name errors = true ->
  raw_lines (rendered errors) = rendered_lines errors
  /\ filter (contains " PdhErrno = C.") (rendered_lines errors) = map decl_line errors
  /\ filter (contains ": struct{}{},") (rendered_lines errors) = map entry_line errors.
Proof.
  intros Hn. split; [|split].
  - rewrite rendered_unlines. apply raw_lines_unlines.
    unfold rendered_lines. rewrite !forallb_app.
    rewrite (forallb_map_names _ _ _ decl_line_no_newline Hn).
    rewrite (forallb_map_names _ _ _ entry_line_no_newline Hn).
    vm_compute. reflexivity.
  - unfold rendered_lines. rewrite !filter_app.
    rewrite (filter_map_all _ _ _ (fun e _ => decl_line_is_decl e)) by exact Hn.
    rewrite (filter_map_none _ _ _ entry_line_not_decl) by exact Hn.
    change (filter (contains " PdhErrno = C.") header_lines) with (@nil string).
    change (filter (contains " PdhErrno = C.") counter_lines) with (@nil string).
    cbn. rewrite app_nil_r. reflexivity.
  - unfold rendered_lines. rewrite !filter_app.
    rewrite (filter_map_none _ _ _ decl_line_not_entry) by exact Hn.
    rewrite (filter_map_all _ _ _ (fun e _ => entry_line_is_entry e)) by exact Hn.
    change (filter (contains ": struct{}{},") header_lines) with (@nil string).
    change (filter (contains ": struct{}{},") counter_lines) with (@nil string).
    cbn. rewrite app_nil_r. reflexivity.
Qed.

(** The names [getErrorDefines] collects are made of word characters. *)
Lemma names_of_are_names (ls : list string) : forallb is_name (names_of ls) = true.
Proof.
  induction ls as [|l ls IH]; simpl; [reflexivity|].
  destruct (capture_name l) as [n|] eqn:Hc; [|exact IH].
  simpl. rewrite IH.
  destruct (capture_name_inv _ _ Hc) as (more & rest & _ & _ & _ & Hw & _).
  unfold is_name. rewrite Hw. reflexivity.
Qed.

Lemma scanErrorDefines_names (out : string) :
  forallb is_name (fst (scanErrorDefines out)) = true.
Proof.
  destruct (scanErrorDefines_spec out) as [H _]. rewrite H.
  apply names_of_are_names.
Qed.

(** ** Lines and carriage returns *)

(** The scan of a text given by its lines. *)
Lemma scanErrorDefines_unlines (ls : list string) :
  forallb no_newline ls = true ->
  forallb fits ls = true ->
  fst (scanErrorDefines (unlines ls)) = names_of (map bufio.dropCR ls).
Proof.
  intros Hnl Hfit.
  assert (Hall : all_fit (raw_lines (unlines ls)) = true).
  { rewrite (raw_lines_unlines _ Hnl). exact Hfit. }
  destruct (scanErrorDefines_complete _ Hall) as (H & _ & _).
  rewrite H. unfold text_lines. rewrite (raw_lines_unlines _ Hnl). reflexivity.
Qed.

Lemma dropCR_cases (l : string) :
  bufio.dropCR l = l \/ l = bufio.dropCR l ++ String (byte_of 13) "".
Proof.
  induction l as [|c l IH]; [left; reflexivity|].
  destruct l as [|d l].
  - cbn [bufio.dropCR]. destruct (is_cr c) eqn:E.
    + right. unfold is_cr in E. apply Ascii.eqb_eq in E. subst c. reflexivity.
    + left. reflexivity.
  - change (bufio.dropCR (String c (String d l)))
      with (String c (bufio.dropCR (String d l))).
    destruct IH as [IH|IH].
    + left. rewrite IH. reflexivity.
    + right. cbn [append]. rewrite <- IH. reflexivity.
Qed.

Lemma strip_prefix_snoc (p l : string) (c : ascii) :
  all_bytes (fun x => negb (Ascii.eqb x c)) p = true ->
  strip_prefix p (l ++ String c "") =
  match strip_prefix p l with
  | Some after => Some (after ++ String c "")
  | None => None
  end.
Proof.
  revert l. induction p as [|a p IH]; intros l H; [reflexivity|].
  cbn [all_bytes] in H. apply andb_true_iff in H. destruct H as [Ha Hp].
  destruct l as [|b l]; cbn [append strip_prefix].
  - apply negb_true_iff in Ha. rewrite Ha. reflexivity.
  - destruct (Ascii.eqb a b); [apply (IH _ Hp)|reflexivity].
Qed.

Lemma take_while_snoc (p : ascii -> bool) (a : string) (c : ascii) :
  p c = false -> take_while p (a ++ String c "") = take_while p a.
Proof.
  intros Hc. induction a as [|x a IH]; cbn [append take_while].
  - rewrite Hc. reflexivity.
  - rewrite IH. reflexivity.
Qed.

(** A carriage return at the end of a line has no part in its name. *)
Lemma capture_name_dropCR (l : string) :
  capture_name (bufio.dropCR l) = capture_name l.
Proof.
  destruct (dropCR_cases l) as [H|H]; [rewrite H; reflexivity|].
  rewrite H at 2. unfold capture_name.
  rewrite strip_prefix_snoc by reflexivity.
  destruct (strip_prefix "#define " (bufio.dropCR l)) as [after|]; [|reflexivity].
  rewrite take_while_snoc by reflexivity. reflexivity.
Qed.

Lemma names_of_dropCR (ls : list string) :
  names_of (map bufio.dropCR ls) = names_of ls.
Proof.
  induction ls as [|l ls IH]; simpl; [reflexivity|].
  rewrite capture_name_dropCR, IH. reflexivity.
Qed.

(** ** Sample runs *)

(** On [long_line_output] the scan stops at the second line with
    [ErrTooLong], after one name. *)
Lemma scan_long_line_names : fst (scanErrorDefines long_line_output) = ["PDH_A"].
Proof. vm_compute. reflexivity. Qed.

Lemma scan_long_line_err :
  bufio.Err (snd (scanErrorDefines long_line_output)) = Some ErrTooLong.
Proof. vm_compute. reflexivity. Qed.

Lemma long_line_names :
  names_of (text_lines long_line_output) = ["PDH_A"; "PDH_B"].
Proof. vm_compute. reflexivity. Qed.

Lemma getErrorDefines_env_of (args : list string) (out fmt : result string) (w : World) :
  fst (getErrorDefines (env_of args out fmt) w) =
  match out with
  | Ok o => Ok (fst (scanErrorDefines o))
  | Err e => Err e
  end.
Proof. rewrite getErrorDefines_result. reflexivity. Qed.

(** A run in which the expander prints [out] and nothing fails. *)
Lemma run_env_of_ok (args : list string) (out : string) :
  main (env_of args (Ok out) (Ok "")) empty_world =
  (mkWorld
     (update (update (fun _ => None) output "") output
             (rendered (fst (scanErrorDefines out))))
     []
     [ EvExec "gcc" ["-E"; "-dD"; "-"];
       EvCreate output;
       EvWrite output;
       EvExec "gofmt" ["-w"; output] ],
   0).
Proof.
  rewrite main_unfold. unfold env_of.
  cbn [exec_Output create_fault write_fault String.eqb Ascii.eqb Bool.eqb].
  reflexivity.
Qed.

(** * The claims *)

(** C1, at an input where the code departs from it: the expander
    output has three lines, the first and the third match the pattern,
    the second has 65536 bytes.  The list [getErrorDefines] returns has
    one entry, while two lines match: the name of the third line is
    dropped, and not by the pattern. *)
Theorem getErrorDefines_drops_after_long_line
        (args : list string) (fmt : result string) (w : World) :
  fst (getErrorDefines (env_of args (Ok long_line_output) fmt) w) = Ok ["PDH_A"]
  /\ names_of (text_lines long_line_output) = ["PDH_A"; "PDH_B"]
  /\ count_matching (text_lines long_line_output) = 2.
Proof.
  rewrite getErrorDefines_env_of, scan_long_line_names.
  rewrite <- names_of_length, long_line_names. auto.
Qed.

(** C2, at an input where the code departs from it: the program is
    started with the arguments [-output x.go].  Parsing them would set
    the flag to [x.go], but [main] never parses the command line: the
    file it creates, writes and has formatted is [defs_pdh_windows.go],
    and no file [x.go] exists afterwards. *)
Theorem output_flag_not_parsed :
  let env := env_of ["-output"; "x.go"] (Ok sample_output) (Ok "") in
  option_map (fun f => flag.deref f "output") (flag.Parse CommandLine (Args env))
  = Some "x.go"
  /\ trace (fst (main env empty_world))
     = [ EvExec "gcc" ["-E"; "-dD"; "-"];
         EvCreate "defs_pdh_windows.go";
         EvWrite "defs_pdh_windows.go";
         EvExec "gofmt" ["-w"; "defs_pdh_windows.go"] ]
  /\ fs (fst (main env empty_world)) "x.go" = None
  /\ fs (fst (main env empty_world)) "defs_pdh_windows.go"
     = Some (rendered ["PDH_CSTATUS_VALID_DATA"; "PDH_CSTATUS_NEW_DATA"]).
Proof.
  cbv zeta. rewrite run_env_of_ok. repeat split.
Qed.

(** The scanner's own error, a line too long for its buffer, is not
    returned: on [long_line_output] the scan stops with [ErrTooLong]
    and [getErrorDefines] returns the names collected so far with a nil
    error. *)
Lemma getErrorDefines_swallows_scanner_error
      (args : list string) (fmt : result string) (w : World) :
  bufio.Err (snd (scanErrorDefines long_line_output)) = Some ErrTooLong
  /\ fst (getErrorDefines (env_of args (Ok long_line_output) fmt) w) = Ok ["PDH_A"].
Proof.
  split; [apply scan_long_line_err|].
  rewrite getErrorDefines_env_of, scan_long_line_names. reflexivity.
Qed.

(** C3: a fault of the stream that carries the expander's output gives
    a failing result and ends the run.  The stream is read to its end
    by [cmd.Output]; when that reports an error, [getErrorDefines]
    returns this error and no list, partial or not, and [main] prints
    it and exits with status 1 without creating the file or running the
    formatter.  The scan itself reads bytes held in memory and meets no
    stream fault: the only error it can end with is the token-size
    limit [ErrTooLong]. *)
Theorem getErrorDefines_stream_fault_aborts
        (env : Env) (w : World) (e : error) (f1 : files) :
  exec_Output env "gcc" ["-E"; "-dD"; "-"] includes (fs w) = (Err e, f1) ->
  fst (getErrorDefines env w) = Err e
  /\ (forall errors, fst (getErrorDefines env w) <> Ok errors)
  /\ snd (main env w) = 1
  /\ stderr (fst (main env w))
     = (stderr w ++ [("error: " ++ Error e ++ NL)%string])%list
  /\ trace (fst (main env w)) = (trace w ++ [EvExec "gcc" ["-E"; "-dD"; "-"]])%list
  /\ (forall out,
         bufio.Err (snd (scanErrorDefines out)) = None
         \/ bufio.Err (snd (scanErrorDefines out)) = Some ErrTooLong).
Proof.
  intros H.
  assert (Hg : fst (getErrorDefines env w) = Err e).
  { rewrite getErrorDefines_result, H. reflexivity. }
  split; [exact Hg|]. split; [intros errors; rewrite Hg; discriminate|].
  rewrite main_unfold, H. cbn [fst snd Fprintln_stderr stderr trace].
  repeat split.
  intros out. destruct (scanErrorDefines_spec out) as [_ He]. rewrite He.
  destruct (all_fit (raw_lines out)); auto.
Qed.

Lemma getErrorDefines_stream_fault_aborts_witness :
  let env := env_of [] (Err (ExecError "read |0: input/output error")) (Ok "") in
  fst (getErrorDefines env empty_world) = Err (ExecError "read |0: input/output error")
  /\ snd (main env empty_world) = 1
  /\ trace (fst (main env empty_world)) = [EvExec "gcc" ["-E"; "-dD"; "-"]].
Proof.
  intros env.
  destruct (getErrorDefines_stream_fault_aborts env empty_world
              (ExecError "read |0: input/output error") (fun _ => None) eq_refl)
    as (H1 & _ & H3 & _ & H5 & _).
  rewrite H1, H3, H5. repeat split.
Defined.

(** C4: rendering is a function of the Definition List alone.  The
    text the template writes for a list is [rendered] of that list,
    whatever the environment and the state of the file system; so in
    any two runs on identical lists in which the write succeeds (before
    which the file may hold anything), the output files hold the same
    bytes. *)
Theorem render_deterministic
        (env1 env2 : Env) (p1 p2 : TemplateParams) (w1 w2 w1' w2' : World) :
  Errors p1 = Errors p2 ->
  writeOutput env1 p1 w1 = (None, w1') ->
  writeOutput env2 p2 w2 = (None, w2') ->
  template.Execute tmpl p1 = template.Execute tmpl p2
  /\ template.Execute tmpl p1 = Ok (rendered (Errors p1))
  /\ fs w1' output = Some (rendered (Errors p1))
  /\ fs w1' output = fs w2' output.
Proof.
  intros He H1 H2.
  apply writeOutput_ok in H1. apply writeOutput_ok in H2.
  destruct p1 as [l1], p2 as [l2]. cbn [Errors] in *. subst l2.
  rewrite tmpl_Execute. repeat split; congruence.
Qed.

Lemma render_deterministic_witness :
  let p := mkTemplateParams ["PDH_CSTATUS_VALID_DATA"; "PDH_CSTATUS_NEW_DATA"] in
  let w2 := mkWorld (update (fun _ => None) output "stale") ["earlier"] [] in
  template.Execute tmpl p = template.Execute tmpl p
  /\ template.Execute tmpl p = Ok (rendered (Errors p))
  /\ fs (snd (writeOutput (env_of [] (Ok "") (Ok "")) p empty_world)) output
     = Some (rendered (Errors p))
  /\ fs (snd (writeOutput (env_of [] (Ok "") (Ok "")) p empty_world)) output
     = fs (snd (writeOutput (env_of ["x"] (Err ErrTooLong) (Ok "")) p w2)) output.
Proof.
  intros p w2.
  apply (render_deterministic
           (env_of [] (Ok "") (Ok "")) (env_of ["x"] (Err ErrTooLong) (Ok ""))
           p p empty_world w2).
  - reflexivity.
  - vm_compute. reflexivity.
  - vm_compute. reflexivity.
Defined.

(** C5: for every Definition List the rendered text is the fixed
    header, one constant declaration per entry in list order, the fixed
    text between the two blocks, one entry of the membership map per
    entry of the list in list order, and the fixed rest; the
    declaration of an entry binds its name to the C macro of the same
    name, and the fixed texts hold no declaration and no map entry.
    When the names are made of word characters, as the scanner's are,
    the lines of the text that hold a constant declaration are exactly
    one per entry, in list order, and so are the lines that hold a map
    entry. *)
Theorem rendered_one_declaration_per_entry (errors : list string) :
  template.Execute tmpl (mkTemplateParams errors)
  = Ok (header
        ++ concat_all (map const_decl errors) ++ const_close
        ++ map_open ++ concat_all (map map_entry errors) ++ map_close
        ++ counter_formats)
  /\ List.length (map const_decl errors) = List.length errors
  /\ List.length (map map_entry errors) = List.length errors
  /\ (forall i name,
         nth_error errors i = Some name ->
         nth_error (map const_decl errors) i
         = Some (NL ++ TAB ++ name ++ " PdhErrno = C." ++ name)
         /\ nth_error (map map_entry errors) i
            = Some (NL ++ TAB ++ name ++ ": struct{}{},"))
  /\ forallb (fun fixed => negb (contains " PdhErrno = C." fixed)
                           && negb (contains ": struct{}{}," fixed))
             [header; const_close; map_open; map_close; counter_formats]
     = true
  /\ (forallb is_name errors = true ->
      filter (contains " PdhErrno = C.") (raw_lines (rendered errors))
      = map (fun name => TAB ++ name ++ " PdhErrno = C." ++ name) errors
      /\ filter (contains ": struct{}{},") (raw_lines (rendered errors))
         = map (fun name => TAB ++ name ++ ": struct{}{},") errors).
Proof.
  split; [apply tmpl_Execute|].
  split; [apply length_map|]. split; [apply length_map|].
  split; [|split; [vm_compute; reflexivity|]].
  - intros i name H. split; rewrite nth_error_map, H; reflexivity.
  - intros Hn. destruct (rendered_lines_spec errors Hn) as (Hl & Hd & He).
    rewrite Hl. split; assumption.
Qed.

Lemma rendered_one_declaration_per_entry_witness :
  (nth_error (map const_decl ["PDH_A"; "PDH_B"]) 1
   = Some (NL ++ TAB ++ "PDH_B" ++ " PdhErrno = C." ++ "PDH_B")
   /\ nth_error (map map_entry ["PDH_A"; "PDH_B"]) 1
      = Some (NL ++ TAB ++ "PDH_B" ++ ": struct{}{},"))
  /\ (filter (contains " PdhErrno = C.") (raw_lines (rendered ["PDH_A"; "PDH_B"]))
      = [TAB ++ "PDH_A" ++ " PdhErrno = C." ++ "PDH_A";
         TAB ++ "PDH_B" ++ " PdhErrno = C." ++ "PDH_B"]
      /\ filter (contains ": struct{}{},") (raw_lines (rendered ["PDH_A"; "PDH_B"]))
         = [TAB ++ "PDH_A" ++ ": struct{}{},"; TAB ++ "PDH_B" ++ ": struct{}{},"]).
Proof.
  split.
  - apply (proj1 (proj2 (proj2 (proj2
             (rendered_one_declaration_per_entry ["PDH_A"; "PDH_B"])))) 1 "PDH_B").
    reflexivity.
  - apply (proj2 (proj2 (proj2 (proj2 (proj2
             (rendered_one_declaration_per_entry ["PDH_A"; "PDH_B"])))))).
    reflexivity.
Defined.

(** C6: on the expander output [#define PDH_CSTATUS_VALID_DATA 0],
    [#define PDH_CSTATUS_NEW_DATA 1], [#define UNRELATED 2],
    [getErrorDefines] returns exactly the two [PDH_] names, in that
    order; the third line gives no entry. *)
Theorem getErrorDefines_sample (env : Env) (w : World) :
  fst (exec_Output env "gcc" ["-E"; "-dD"; "-"] includes (fs w)) = Ok sample_output ->
  fst (getErrorDefines env w)
  = Ok ["PDH_CSTATUS_VALID_DATA"; "PDH_CSTATUS_NEW_DATA"].
Proof.
  intros H. rewrite getErrorDefines_result, H. reflexivity.
Qed.

Lemma getErrorDefines_sample_witness :
  fst (getErrorDefines (env_of [] (Ok sample_output) (Ok "")) empty_world)
  = Ok ["PDH_CSTATUS_VALID_DATA"; "PDH_CSTATUS_NEW_DATA"].
Proof.
  apply (getErrorDefines_sample (env_of [] (Ok sample_output) (Ok "")) empty_world).
  reflexivity.
Defined.

(** C7: for the empty Definition List the template parses and
    executes without error; the text it writes is the header, an empty
    constants block, an empty membership map and the counter-format
    block, which declares the type [PdhCounterFormat] and the six flag
    constants. *)
Theorem rendered_empty_list :
  exists text,
    template.Execute tmpl (mkTemplateParams []) = Ok text
    /\ text = header ++ const_close ++ map_open ++ map_close ++ counter_formats
    /\ contains ("// PDH Error Codes" ++ NL ++ "const (" ++ NL ++ ")" ++ NL) text = true
    /\ contains ("var pdhErrors = map[PdhErrno]struct{}{" ++ NL ++ "}" ++ NL) text = true
    /\ contains " PdhErrno = C." text = false
    /\ forallb (fun part => contains part text)
         [ counter_formats;
           "type PdhCounterFormat uint32";
           "PdhFmtDouble PdhCounterFormat = C.PDH_FMT_DOUBLE";
           "PdhFmtLarge PdhCounterFormat = C.PDH_FMT_LARGE";
           "PdhFmtLong PdhCounterFormat = C.PDH_FMT_LONG";
           "PdhFmtNoScale PdhCounterFormat = C.PDH_FMT_NOSCALE";
           "PdhFmtNoCap100 PdhCounterFormat = C.PDH_FMT_NOCAP100";
           "PdhFmtMultiply1000 PdhCounterFormat = C.PDH_FMT_1000" ]
       = true.
Proof.
  exists (rendered []).
  split; [apply tmpl_Execute|].
  repeat split; vm_compute; reflexivity.
Qed.

(** C8: when the list has been collected and written and the
    formatter then fails, [main] prints the error and exits with status
    1 without touching the files again: they are as the formatter
    command left them.  So, provided the failing command itself left
    the output file as it found it, the file still holds the whole
    rendered text; the write is not rolled back. *)
Theorem formatter_failure_keeps_written_text
        (env : Env) (w : World) (out : string) (f1 f3 : files) (e : error) :
  let text := rendered (fst (scanErrorDefines out)) in
  let f2 := update (update f1 output "") output text in
  exec_Output env "gcc" ["-E"; "-dD"; "-"] includes (fs w) = (Ok out, f1) ->
  create_fault env output = None ->
  write_fault env output text = None ->
  exec_Output env "gofmt" ["-w"; output] "" f2 = (Err e, f3) ->
  f3 output = f2 output ->
  snd (main env w) = 1
  /\ fs (fst (main env w)) = f3
  /\ fs (fst (main env w)) output = Some text
  /\ stderr (fst (main env w))
     = (stderr w ++ [("error: " ++ Error e ++ NL)%string])%list.
Proof.
  intros text f2 H1 H2 H3 H4 Hkeep.
  rewrite main_unfold, H1. cbv zeta. fold text. rewrite H2, H3. fold f2. rewrite H4.
  cbn [fst snd Fprintln_stderr fs stderr].
  repeat split. rewrite Hkeep. unfold f2. apply update_same.
Qed.

Lemma formatter_failure_keeps_written_text_witness :
  let env := env_of [] (Ok sample_output) (Err (ExecError "exit status 2")) in
  snd (main env empty_world) = 1
  /\ fs (fst (main env empty_world)) output
     = Some (rendered (fst (scanErrorDefines sample_output))).
Proof.
  intros env.
  destruct (formatter_failure_keeps_written_text
              env empty_world sample_output (fun _ => None)
              (update (update (fun _ => None) output "") output
                      (rendered (fst (scanErrorDefines sample_output))))
              (ExecError "exit status 2")) as (Hm & _ & Hf & _).
  - reflexivity.
  - reflexivity.
  - reflexivity.
  - reflexivity.
  - reflexivity.
  - split; [exact Hm|exact Hf].
Defined.

(** C9, at an input where the code departs from it: with the same
    expander output and every other step succeeding, the scan ends in
    the error [ErrTooLong], yet the process prints nothing on the error
    stream and exits with status 0. *)
Theorem main_exit_0_after_scanner_error (args : list string) :
  bufio.Err (snd (scanErrorDefines long_line_output)) = Some ErrTooLong
  /\ snd (main (env_of args (Ok long_line_output) (Ok "")) empty_world) = 0
  /\ stderr (fst (main (env_of args (Ok long_line_output) (Ok "")) empty_world)) = [].
Proof.
  split; [apply scan_long_line_err|].
  rewrite run_env_of_ok. split; reflexivity.
Qed.

(** C10: the pattern is anchored at the first byte of the line and its
    group takes the maximal run of word characters.  For every line the
    result of [FindStringSubmatch] is decided by the start of the line:
    there is a match only when the line is [#define ], then a name made
    of [PDH_] and at least one more word character, then a rest that
    does not begin with a word character, and the group is that name; a
    line whose first byte is not [#] (leading white space, the marker in
    the middle of the line) gives no match; [#define PDH_FOO(x) 1]
    gives [PDH_FOO].  The scan loop turns this into entries: a line
    that matches yields its captured name, and only the name, a line
    that does not match yields no entry, line after line in order. *)
Theorem pdhErrorRegex_anchored_maximal :
  (forall line : string,
      regexp.FindStringSubmatch pdhErrorRegex line =
      match capture_name line with
      | Some name => [("#define " ++ name)%string; name]
      | None => []
      end
      /\ (forall name,
             nth_error (regexp.FindStringSubmatch pdhErrorRegex line) 1 = Some name ->
             exists more rest,
               line = "#define " ++ name ++ rest
               /\ name = "PDH_" ++ more
               /\ more <> ""
               /\ all_bytes regexp.word name = true
               /\ take_while regexp.word rest = "")
      /\ (forall c,
             Ascii.eqb c "#"%char = false ->
             regexp.FindStringSubmatch pdhErrorRegex (String c line) = [])
      /\ (no_newline line = true ->
          fits line = true ->
          fst (scanErrorDefines (line ++ NL))
          = match nth_error (regexp.FindStringSubmatch pdhErrorRegex line) 1 with
            | Some name => [name]
            | None => []
            end)
      /\ (forall c,
             Ascii.eqb c "#"%char = false ->
             no_newline (String c line) = true ->
             fits (String c line) = true ->
             fst (scanErrorDefines (String c line ++ NL)) = []))
  /\ (forall ls : list string,
         forallb no_newline ls = true ->
         forallb fits ls = true ->
         fst (scanErrorDefines (unlines ls)) = names_of ls)
  /\ regexp.FindStringSubmatch pdhErrorRegex "#define PDH_FOO(x) 1"
     = ["#define PDH_FOO"; "PDH_FOO"]
  /\ regexp.FindStringSubmatch pdhErrorRegex "  #define PDH_FOO 1" = []
  /\ regexp.FindStringSubmatch pdhErrorRegex "int x; #define PDH_FOO 1" = []
  /\ regexp.FindStringSubmatch pdhErrorRegex "#define PDH_ 1" = []
  /\ fst (scanErrorDefines
            (unlines ["  #define PDH_BAR 1"; "#define PDH_FOO(x) 1";
                      "int x; #define PDH_BAZ 1"; "#define PDH_ 1"]))
     = ["PDH_FOO"].
Proof.
  assert (Hls : forall ls : list string,
             forallb no_newline ls = true ->
             forallb fits ls = true ->
             fst (scanErrorDefines (unlines ls)) = names_of ls).
  { intros ls Hnl Hfit.
    rewrite (scanErrorDefines_unlines _ Hnl Hfit). apply names_of_dropCR. }
  assert (Hone : forall l : string,
             no_newline l = true -> fits l = true ->
             fst (scanErrorDefines (l ++ NL)) = names_of [l]).
  { intros l Hnl Hfit.
    replace (l ++ NL) with (unlines [l])
      by (unfold unlines; cbn [map concat_all]; apply app_empty_r).
    apply Hls; cbn [forallb]; rewrite ?Hnl, ?Hfit; reflexivity. }
  split; [|split; [exact Hls|repeat split; vm_compute; reflexivity]].
  intros line. split; [apply FindStringSubmatch_pdhErrorRegex|].
  split; [|split; [|split]].
  - intros name. rewrite FindStringSubmatch_pdhErrorRegex.
    destruct (capture_name line) as [n|] eqn:Hc; [|discriminate].
    simpl. intros H. injection H as <-. apply capture_name_inv. exact Hc.
  - intros c Hc. rewrite FindStringSubmatch_pdhErrorRegex.
    rewrite capture_name_first_byte by exact Hc. reflexivity.
  - intros Hnl Hfit. rewrite (Hone _ Hnl Hfit), FindStringSubmatch_pdhErrorRegex.
    cbn [names_of]. destruct (capture_name line); reflexivity.
  - intros c Hc Hnl Hfit. rewrite (Hone _ Hnl Hfit). cbn [names_of].
    rewrite capture_name_first_byte by exact Hc. reflexivity.
Qed.

Lemma pdhErrorRegex_anchored_maximal_witness :
  (exists more rest,
      "#define PDH_FOO(x) 1" = "#define " ++ "PDH_FOO" ++ rest
      /\ "PDH_FOO" = "PDH_" ++ more
      /\ more <> ""
      /\ all_bytes regexp.word "PDH_FOO" = true
      /\ take_while regexp.word rest = "")
  /\ regexp.FindStringSubmatch pdhErrorRegex (String " " "#define PDH_FOO 1") = []
  /\ fst (scanErrorDefines ("#define PDH_FOO(x) 1" ++ NL)) = ["PDH_FOO"]
  /\ fst (scanErrorDefines (String " " "#define PDH_FOO 1" ++ NL)) = []
  /\ fst (scanErrorDefines (unlines ["#define PDH_A 1"; "x"; "#define PDH_A 1"]))
     = ["PDH_A"; "PDH_A"].
Proof.
  split; [|split; [|split; [|split]]].
  - apply (proj1 (proj2 (proj1 pdhErrorRegex_anchored_maximal "#define PDH_FOO(x) 1"))).
    reflexivity.
  - apply (proj1 (proj2 (proj2
             (proj1 pdhErrorRegex_anchored_maximal "#define PDH_FOO 1")))).
    reflexivity.
  - apply (proj1 (proj2 (proj2 (proj2
             (proj1 pdhErrorRegex_anchored_maximal "#define PDH_FOO(x) 1")))));
      reflexivity.
  - apply (proj2 (proj2 (proj2 (proj2
             (proj1 pdhErrorRegex_anchored_maximal "#define PDH_FOO 1")))));
      reflexivity.
  - apply (proj1 (proj2 pdhErrorRegex_anchored_maximal)
             ["#define PDH_A 1"; "x"; "#define PDH_A 1"]);
      reflexivity.
Defined.

(** * Further properties of the generator *)

(** ** Scanning *)

Lemma names_of_app (l1 l2 : list string) :
  names_of (l1 ++ l2) = (names_of l1 ++ names_of l2)%list.
Proof.
  induction l1 as [|l l1 IH]; simpl; [reflexivity|].
  destruct (capture_name l); simpl; rewrite IH; reflexivity.
Qed.

Lemma fitting_prefix (ls : list string) :
  exists rest, ls = (fitting ls ++ rest)%list
               /\ (all_fit ls = true -> rest = []).
Proof.
  induction ls as [|l ls (rest & IH & Hall)]; simpl.
  - exists []. auto.
  - destruct (bufio.len l <? bufio.MaxScanTokenSize)%N; simpl.
    + exists rest. split; [f_equal; exact IH|exact Hall].
    + exists (l :: ls). split; [reflexivity|discriminate].
Qed.

Lemma wellformed_from_capture (line name : string) :
  capture_name line = Some name -> wellformed_name name = true.
Proof.
  intros H. destruct (capture_name_inv _ _ H) as (more & rest & _ & Hn & Hm & Hw & _).
  unfold wellformed_name. subst name. rewrite strip_prefix_self.
  destruct more; [congruence|]. exact Hw.
Qed.

Lemma names_of_wellformed (ls : list string) :
  forallb wellformed_name (names_of ls) = true.
Proof.
  induction ls as [|l ls IH]; simpl; [reflexivity|].
  destruct (capture_name l) as [n|] eqn:Hc; [|exact IH].
  simpl. rewrite IH, (wellformed_from_capture _ _ Hc). reflexivity.
Qed.

(** X1: when every line of the expander output is shorter than 65536
    bytes, [getErrorDefines] succeeds with exactly the names of the
    matching lines of the whole output, in order and with duplicates,
    as many as there are matching lines, and the scanner has reached
    the end of the output without error. *)
Theorem getErrorDefines_all_lines_fit (env : Env) (w : World) (out : string) :
  fst (exec_Output env "gcc" ["-E"; "-dD"; "-"] includes (fs w)) = Ok out ->
  all_fit (raw_lines out) = true ->
  fst (getErrorDefines env w) = Ok (names_of (text_lines out))
  /\ List.length (names_of (text_lines out)) = count_matching (text_lines out)
  /\ bufio.Err (snd (scanErrorDefines out)) = None.
Proof.
  intros Hout Hfit. rewrite getErrorDefines_result, Hout.
  destruct (scanErrorDefines_complete out Hfit) as (H1 & H2 & H3).
  rewrite H1 in *. auto.
Qed.

Lemma getErrorDefines_all_lines_fit_witness :
  fst (getErrorDefines (env_of [] (Ok sample_output) (Ok "")) empty_world)
  = Ok (names_of (text_lines sample_output))
  /\ List.length (names_of (text_lines sample_output))
     = count_matching (text_lines sample_output)
  /\ bufio.Err (snd (scanErrorDefines sample_output)) = None.
Proof.
  apply (getErrorDefines_all_lines_fit
           (env_of [] (Ok sample_output) (Ok "")) empty_world sample_output).
  - reflexivity.
  - vm_compute. reflexivity.
Defined.

(** X2: whatever the expander prints, the list [getErrorDefines]
    collects is an initial part of the names of the matching lines: no
    name is invented, reordered or skipped in the middle.  It is the
    whole list exactly when the scanner ends without error, which is
    when every line is shorter than 65536 bytes. *)
Theorem scanErrorDefines_prefix_of_matches (out : string) :
  (exists rest,
      names_of (text_lines out) = (fst (scanErrorDefines out) ++ rest)%list
      /\ (bufio.Err (snd (scanErrorDefines out)) = None -> rest = []))
  /\ (bufio.Err (snd (scanErrorDefines out)) = None
      <-> all_fit (raw_lines out) = true).
Proof.
  destruct (scanErrorDefines_spec out) as [Hn He]. split.
  - destruct (fitting_prefix (raw_lines out)) as (rest & Hls & Hall).
    exists (names_of (map bufio.dropCR rest)). split.
    + unfold text_lines. rewrite Hn. rewrite Hls at 1.
      rewrite map_app, names_of_app. reflexivity.
    + intros Herr. rewrite He in Herr.
      destruct (all_fit (raw_lines out)); [|discriminate].
      rewrite (Hall eq_refl). reflexivity.
  - rewrite He. destruct (all_fit (raw_lines out)); split; congruence.
Qed.

(** X3: every name [getErrorDefines] returns, on any expander output,
    is an identifier: it begins with [PDH_], goes on for at least one
    more byte and consists of letters, digits and underscores only. *)
Theorem getErrorDefines_names_wellformed (env : Env) (w : World) (errors : list string) :
  fst (getErrorDefines env w) = Ok errors ->
  forallb wellformed_name errors = true.
Proof.
  rewrite getErrorDefines_result.
  destruct (fst (exec_Output env "gcc" ["-E"; "-dD"; "-"] includes (fs w))) as [out|e];
    [|discriminate].
  intros H. injection H as <-.
  destruct (scanErrorDefines_spec out) as [Hn _]. rewrite Hn.
  apply names_of_wellformed.
Qed.

Lemma getErrorDefines_names_wellformed_witness :
  forallb wellformed_name ["PDH_CSTATUS_VALID_DATA"; "PDH_CSTATUS_NEW_DATA"] = true.
Proof.
  apply (getErrorDefines_names_wellformed
           (env_of [] (Ok sample_output) (Ok "")) empty_world).
  reflexivity.
Defined.

(** X4: [getErrorDefines] fails exactly when the [gcc] command fails,
    and then with the command's own error; in every case it runs that
    one command and nothing else, and writes nothing to the error
    stream. *)
Theorem getErrorDefines_fails_iff_command_fails (env : Env) (w : World) :
  (forall e,
      fst (getErrorDefines env w) = Err e
      <-> fst (exec_Output env "gcc" ["-E"; "-dD"; "-"] includes (fs w)) = Err e)
  /\ trace (snd (getErrorDefines env w))
     = (trace w ++ [EvExec "gcc" ["-E"; "-dD"; "-"]])%list
  /\ stderr (snd (getErrorDefines env w)) = stderr w
  /\ fs (snd (getErrorDefines env w))
     = snd (exec_Output env "gcc" ["-E"; "-dD"; "-"] includes (fs w)).
Proof.
  split.
  - intros e. rewrite getErrorDefines_result.
    destruct (fst (exec_Output env "gcc" ["-E"; "-dD"; "-"] includes (fs w)));
      split; congruence.
  - unfold getErrorDefines, Command_Output.
    destruct (exec_Output env "gcc" ["-E"; "-dD"; "-"] includes (fs w)) as [[out|e] f].
    + destruct (scanErrorDefines out). auto.
    + auto.
Qed.

Lemma take_while_all (p : ascii -> bool) (a b : string) :
  all_bytes p a = true -> take_while p (a ++ b) = a ++ take_while p b.
Proof.
  induction a as [|c a IH]; simpl; [reflexivity|].
  intros H. apply andb_true_iff in H. destruct H as [Hc Ha].
  rewrite Hc, (IH Ha). reflexivity.
Qed.

Lemma capture_name_complete (name rest : string) :
  wellformed_name name = true ->
  take_while regexp.word rest = "" ->
  capture_name ("#define " ++ name ++ rest) = Some name.
Proof.
  unfold wellformed_name, capture_name. intros Hw Hr.
  rewrite strip_prefix_self.
  destruct (strip_prefix "PDH_" name) as [[|c more]|] eqn:Hp; try discriminate.
  rewrite (take_while_all _ _ _ Hw), Hr, app_empty_r, Hp. reflexivity.
Qed.

(** X5: the pattern finds every well-formed name.  A line made of
    [#define ], a name ([PDH_] and at least one more word character)
    and a rest that is empty or begins with a byte that is not a word
    character gives that name as its group, and the marker with the
    name as its whole match. *)
Theorem pdhErrorRegex_finds_name (name rest : string) :
  wellformed_name name = true ->
  take_while regexp.word rest = "" ->
  regexp.FindStringSubmatch pdhErrorRegex ("#define " ++ name ++ rest)
  = [("#define " ++ name)%string; name].
Proof.
  intros Hw Hr. rewrite FindStringSubmatch_pdhErrorRegex.
  rewrite (capture_name_complete _ _ Hw Hr). reflexivity.
Qed.

Lemma pdhErrorRegex_finds_name_witness :
  regexp.FindStringSubmatch pdhErrorRegex ("#define " ++ "PDH_MORE_DATA" ++ " ((DWORD)0x800007D2L)")
  = [("#define " ++ "PDH_MORE_DATA")%string; "PDH_MORE_DATA"].
Proof.
  apply (pdhErrorRegex_finds_name "PDH_MORE_DATA" " ((DWORD)0x800007D2L)");
    reflexivity.
Defined.

Lemma dropCR_app (a : string) (c : ascii) (r : string) :
  bufio.dropCR (a ++ String c r) = a ++ bufio.dropCR (String c r).
Proof.
  induction a as [|x a IH]; [reflexivity|].
  cbn [append]. destruct (a ++ String c r) as [|y t] eqn:E.
  - destruct a; discriminate.
  - change (bufio.dropCR (String x (String y t)))
      with (String x (bufio.dropCR (String y t))).
    rewrite IH. reflexivity.
Qed.

Lemma dropCR_no_cr (s : string) :
  all_bytes (fun c => negb (is_cr c)) s = true -> bufio.dropCR s = s.
Proof.
  induction s as [|c s IH]; [reflexivity|].
  cbn [all_bytes]. intros H. apply andb_true_iff in H. destruct H as [Hc Hs].
  destruct s as [|d s].
  - cbn [bufio.dropCR]. apply negb_true_iff in Hc. rewrite Hc. reflexivity.
  - change (bufio.dropCR (String c (String d s)))
      with (String c (bufio.dropCR (String d s))).
    rewrite (IH Hs). reflexivity.
Qed.

Lemma word_not_cr (c : ascii) : regexp.word c = true -> negb (is_cr c) = true.
Proof.
  intros H. unfold is_cr. destruct (Ascii.eqb c (byte_of 13)) eqn:E.
  - apply Ascii.eqb_eq in E. subst c. discriminate H.
  - reflexivity.
Qed.

(** Dropping the carriage return of a macro line leaves its name in
    place. *)
Lemma capture_name_define_line (d : string * string) :
  wellformed_name (fst d) = true ->
  take_while regexp.word (snd d) = "" ->
  capture_name (bufio.dropCR (define_line d)) = Some (fst d).
Proof.
  destruct d as [name rest]. cbn [fst snd]. intros Hw Hr. unfold define_line.
  cbn [fst snd]. destruct rest as [|c r].
  - rewrite dropCR_no_cr.
    + apply capture_name_complete; [exact Hw|reflexivity].
    + rewrite app_empty_r, all_bytes_app. apply andb_true_iff. split; [reflexivity|].
      unfold wellformed_name in Hw.
      destruct (strip_prefix "PDH_" name) as [[|x m]|]; try discriminate.
      exact (all_bytes_impl _ _ _ word_not_cr Hw).
  - rewrite <- app_assoc_s, dropCR_app, app_assoc_s.
    apply capture_name_complete; [exact Hw|].
    cbn [take_while] in Hr. destruct (regexp.word c) eqn:Hc; [discriminate|].
    destruct r as [|x r].
    + cbn [bufio.dropCR]. destruct (is_cr c); [reflexivity|].
      cbn [take_while]. rewrite Hc. reflexivity.
    + change (bufio.dropCR (String c (String x r)))
        with (String c (bufio.dropCR (String x r))).
      cbn [take_while]. rewrite Hc. reflexivity.
Qed.

Lemma define_line_no_newline (d : string * string) :
  wellformed_name (fst d) = true ->
  no_newline (snd d) = true ->
  no_newline (define_line d) = true.
Proof.
  intros Hw Hr. unfold define_line, no_newline in *. rewrite !all_bytes_app, Hr.
  unfold wellformed_name in Hw.
  destruct (strip_prefix "PDH_" (fst d)) as [[|x m]|]; try discriminate.
  pose proof (is_name_no_newline _ Hw) as Hn. unfold no_newline in Hn.
  rewrite Hn. reflexivity.
Qed.

(** X6: macro lines scan back to their names.  For any list of
    macros, each a well-formed name followed by text that does not
    continue the name and has no newline, with lines shorter than 65536
    bytes, the output that holds one [#define] line per macro gives
    [getErrorDefines] exactly the names, in order, duplicates kept. *)
Theorem scanErrorDefines_define_lines (defs : list (string * string)) :
  forallb (fun d => wellformed_name (fst d) && follows_name (snd d)
                    && fits (define_line d)) defs = true ->
  fst (scanErrorDefines (unlines (map define_line defs))) = map fst defs.
Proof.
  intros H.
  assert (Hnl : forallb no_newline (map define_line defs) = true
                /\ forallb fits (map define_line defs) = true
                /\ names_of (map bufio.dropCR (map define_line defs)) = map fst defs).
  { induction defs as [|d defs IH]; [auto|].
    cbn [forallb] in H. apply andb_true_iff in H. destruct H as [Hd Hdefs].
    apply andb_true_iff in Hd. destruct Hd as [Hd Hfit].
    apply andb_true_iff in Hd. destruct Hd as [Hw Hf].
    unfold follows_name in Hf. apply andb_true_iff in Hf. destruct Hf as [Hr Hn].
    apply String.eqb_eq in Hr.
    destruct (IH Hdefs) as (I1 & I2 & I3).
    cbn [map forallb names_of].
    rewrite (define_line_no_newline _ Hw Hn), I1, Hfit, I2.
    rewrite (capture_name_define_line _ Hw Hr), I3. auto. }
  destruct Hnl as (H1 & H2 & H3).
  rewrite (scanErrorDefines_unlines _ H1 H2). exact H3.
Qed.

Lemma scanErrorDefines_define_lines_witness :
  fst (scanErrorDefines
         (unlines (map define_line
                       [("PDH_CSTATUS_VALID_DATA", " ((DWORD)0x00000000L)");
                        ("PDH_FUNCTION", "(x) x");
                        ("PDH_CSTATUS_VALID_DATA", "")])))
  = map fst [("PDH_CSTATUS_VALID_DATA", " ((DWORD)0x00000000L)");
             ("PDH_FUNCTION", "(x) x");
             ("PDH_CSTATUS_VALID_DATA", "")].
Proof.
  apply (scanErrorDefines_define_lines
           [("PDH_CSTATUS_VALID_DATA", " ((DWORD)0x00000000L)");
            ("PDH_FUNCTION", "(x) x");
            ("PDH_CSTATUS_VALID_DATA", "")]).
  vm_compute. reflexivity.
Defined.

Lemma raw_lines_unlines_app (ls : list string) (out : string) :
  forallb no_newline ls = true ->
  raw_lines (unlines ls ++ out) = (ls ++ raw_lines out)%list.
Proof.
  induction ls as [|l ls IH]; intros H.
  - reflexivity.
  - cbn [forallb] in H. apply andb_true_iff in H. destruct H as [Hl Hls].
    rewrite unlines_cons, !app_assoc_s. unfold raw_lines at 1.
    rewrite (lines_from_line _ _ Hl), (IH Hls). reflexivity.
Qed.

Lemma fitting_app (l1 l2 : list string) :
  forallb fits l1 = true -> fitting (l1 ++ l2) = (l1 ++ fitting l2)%list.
Proof.
  induction l1 as [|l l1 IH]; simpl; [reflexivity|].
  unfold fits at 1. intros H. apply andb_true_iff in H. destruct H as [Hl Hl1].
  rewrite Hl, (IH Hl1). reflexivity.
Qed.

(** X7: complete lines at the start of the expander output are scanned
    independently of what follows them.  When the output begins with
    lines that each end in a newline and are shorter than 65536 bytes,
    the list collected is the names of those lines followed by the list
    collected from the rest of the output alone, whatever the rest
    is. *)
Theorem scanErrorDefines_app (ls : list string) (out : string) :
  forallb no_newline ls = true ->
  forallb fits ls = true ->
  fst (scanErrorDefines (unlines ls ++ out))
  = (fst (scanErrorDefines (unlines ls)) ++ fst (scanErrorDefines out))%list.
Proof.
  intros Hnl Hfit.
  rewrite (scanErrorDefines_unlines _ Hnl Hfit).
  destruct (scanErrorDefines_spec (unlines ls ++ out)) as [H1 _].
  destruct (scanErrorDefines_spec out) as [H2 _].
  rewrite H1, H2, (raw_lines_unlines_app _ _ Hnl), (fitting_app _ _ Hfit).
  rewrite map_app, names_of_app. reflexivity.
Qed.

Lemma scanErrorDefines_app_witness :
  fst (scanErrorDefines (unlines ["#define PDH_A 1"; "int x;"] ++ long_line_output))
  = (fst (scanErrorDefines (unlines ["#define PDH_A 1"; "int x;"]))
     ++ fst (scanErrorDefines long_line_output))%list.
Proof.
  apply (scanErrorDefines_app ["#define PDH_A 1"; "int x;"] long_line_output);
    reflexivity.
Defined.


(** ** Line endings *)

Lemma len_snoc (l : string) (c : ascii) :
  bufio.len (l ++ String c "") = N.succ (bufio.len l).
Proof. induction l as [|x l IH]; simpl; [|rewrite IH]; reflexivity. Qed.

Lemma fits_without_cr (ls : list string) :
  forallb fits (map (fun l => l ++ String (byte_of 13) "") ls) = true ->
  forallb fits ls = true.
Proof.
  induction ls as [|l ls IH]; [reflexivity|].
  cbn [map forallb]. intros H. apply andb_true_iff in H. destruct H as [Hl Hls].
  rewrite (IH Hls), andb_true_r.
  unfold fits in *. rewrite len_snoc in Hl.
  apply N.ltb_lt in Hl. apply N.ltb_lt. lia.
Qed.

(** X8: line endings do not matter for lines that fit the scanner's
    buffer together with their carriage return.  When every line
    followed by a carriage return is shorter than 65536 bytes, the
    output whose lines end in carriage return and newline gives
    [getErrorDefines] the same list as the same lines ending in a
    newline alone.  (A line of 65535 bytes fits alone but not with its
    carriage return; there the two lists differ.) *)
Theorem scanErrorDefines_crlf (ls : list string) :
  forallb no_newline ls = true ->
  forallb fits (map (fun l => l ++ String (byte_of 13) "") ls) = true ->
  fst (scanErrorDefines (unlines (map (fun l => l ++ String (byte_of 13) "") ls)))
  = fst (scanErrorDefines (unlines ls)).
Proof.
  intros Hnl Hfit'. pose proof (fits_without_cr _ Hfit') as Hfit.
  assert (Hnl' : forallb no_newline (map (fun l => l ++ String (byte_of 13) "") ls) = true).
  { clear Hfit Hfit'. induction ls as [|l ls IH]; [reflexivity|].
    cbn [forallb map] in *. apply andb_true_iff in Hnl. destruct Hnl as [Hl Hls].
    rewrite (IH Hls). unfold no_newline in *. rewrite all_bytes_app, Hl. reflexivity. }
  rewrite (scanErrorDefines_unlines _ Hnl' Hfit'), (scanErrorDefines_unlines _ Hnl Hfit).
  rewrite !names_of_dropCR. clear.
  induction ls as [|l ls IH]; [reflexivity|].
  cbn [map names_of]. rewrite IH.
  replace (capture_name (l ++ String (byte_of 13) "")) with (capture_name l);
    [reflexivity|].
  unfold capture_name. rewrite strip_prefix_snoc by reflexivity.
  destruct (strip_prefix "#define " l); [|reflexivity].
  rewrite take_while_snoc by reflexivity. reflexivity.
Qed.

Lemma scanErrorDefines_crlf_witness :
  fst (scanErrorDefines
         (unlines (map (fun l => l ++ String (byte_of 13) "")
                       ["#define PDH_A 1"; "#define PDH_B"; "int x;"])))
  = fst (scanErrorDefines (unlines ["#define PDH_A 1"; "#define PDH_B"; "int x;"])).
Proof.
  apply (scanErrorDefines_crlf ["#define PDH_A 1"; "#define PDH_B"; "int x;"]);
    reflexivity.
Defined.

(** ** Reading the rendered text back *)

Lemma declared_name_decl_line (e : string) :
  is_name e = true -> declared_name (decl_line e) = e.
Proof.
  intros He. unfold declared_name, decl_line.
  change (drop 1 (TAB ++ e ++ " PdhErrno = C." ++ e)) with (e ++ " PdhErrno = C." ++ e).
  rewrite (take_while_all _ _ _ He). cbn [append take_while].
  change (regexp.word " ") with false. cbv iota. apply app_empty_r.
Qed.

Lemma declared_name_entry_line (e : string) :
  is_name e = true -> declared_name (entry_line e) = e.
Proof.
  intros He. unfold declared_name, entry_line.
  change (drop 1 (TAB ++ e ++ ": struct{}{},")) with (e ++ ": struct{}{},").
  rewrite (take_while_all _ _ _ He). cbn [append take_while].
  change (regexp.word ":") with false. cbv iota. apply app_empty_r.
Qed.

Lemma map_declared_name (f : string -> string) (l : list string) :
  (forall e, is_name e = true -> declared_name (f e) = e) ->
  forallb is_name l = true -> map declared_name (map f l) = l.
Proof.
  intros Hf. induction l as [|e l IH]; simpl; [reflexivity|].
  intros H. apply andb_true_iff in H. destruct H as [He Hl].
  rewrite (Hf _ He), (IH Hl). reflexivity.
Qed.

Lemma declared_names_rendered (errors : list string) :
  forallb is_name errors = true ->
  declared_names (rendered errors) = errors
  /\ member_names (rendered errors) = errors.
Proof.
  intros Hn. destruct (rendered_lines_spec errors Hn) as (Hl & Hd & He).
  unfold declared_names, member_names. rewrite Hl, Hd, He.
  split; apply map_declared_name; auto using declared_name_decl_line,
    declared_name_entry_line.
Qed.

(** X9: the Definition List can be read back from the generated
    text.  For names made of word characters, the names at the start of
    the declaration lines of the rendered text are the list itself, and
    so are the names at the start of the map-entry lines: the constants
    block and the membership map always list the same names, in the
    same order, duplicates included. *)
Theorem rendered_read_back (errors : list string) :
  forallb is_name errors = true ->
  declared_names (rendered errors) = errors
  /\ member_names (rendered errors) = errors
  /\ template.Execute tmpl (mkTemplateParams errors) = Ok (rendered errors).
Proof.
  intros Hn. destruct (declared_names_rendered errors Hn) as [H1 H2].
  repeat split; try assumption. apply tmpl_Execute.
Qed.

Lemma rendered_read_back_witness :
  declared_names (rendered ["PDH_B"; "PDH_A"; "PDH_B"]) = ["PDH_B"; "PDH_A"; "PDH_B"]
  /\ member_names (rendered ["PDH_B"; "PDH_A"; "PDH_B"]) = ["PDH_B"; "PDH_A"; "PDH_B"]
  /\ template.Execute tmpl (mkTemplateParams ["PDH_B"; "PDH_A"; "PDH_B"])
     = Ok (rendered ["PDH_B"; "PDH_A"; "PDH_B"]).
Proof.
  apply (rendered_read_back ["PDH_B"; "PDH_A"; "PDH_B"]). reflexivity.
Defined.

(** X10: rendering loses nothing.  Two lists of names (word characters
    only) for which the template writes the same text are the same
    list: a change of a name, of the order or of the number of entries
    always shows in the generated file. *)
Theorem Execute_injective (errors1 errors2 : list string) :
  forallb is_name errors1 = true ->
  forallb is_name errors2 = true ->
  template.Execute tmpl (mkTemplateParams errors1)
  = template.Execute tmpl (mkTemplateParams errors2) ->
  errors1 = errors2.
Proof.
  intros H1 H2. rewrite !tmpl_Execute. intros H.
  apply (f_equal (fun r => match r with Ok a => a | Err _ => "" end)) in H.
  cbv beta iota in H.
  destruct (declared_names_rendered _ H1) as [D1 _].
  destruct (declared_names_rendered _ H2) as [D2 _].
  rewrite <- D1, <- D2, H. reflexivity.
Qed.

Lemma Execute_injective_witness : ["PDH_A"; "PDH_B"] = ["PDH_A"; "PDH_B"].
Proof.
  apply (Execute_injective ["PDH_A"; "PDH_B"] ["PDH_A"; "PDH_B"]); reflexivity.
Defined.

(** ** Writing *)

Lemma update_other (f : files) (path data p : string) :
  p <> path -> update f path data p = f p.
Proof.
  intros H. unfold update. apply String.eqb_neq in H. rewrite H. reflexivity.
Qed.

(** X11: [writeOutput] fails only through the file system.  It
    returns no error exactly when the file can be created and the whole
    text written: rendering never adds an error of its own.  When the
    file cannot be created nothing at all is done; and whatever
    happens, no file other than the output file is changed. *)
Theorem writeOutput_errors_and_frame (env : Env) (p : TemplateParams) (w : World) :
  (fst (writeOutput env p w) = None
   <-> create_fault env output = None
       /\ write_fault env output (rendered (Errors p)) = None)
  /\ (forall e, create_fault env output = Some e -> writeOutput env p w = (Some e, w))
  /\ (forall path, path <> output -> fs (snd (writeOutput env p w)) path = fs w path).
Proof.
  rewrite writeOutput_unfold. split; [|split].
  - destruct (create_fault env output); [split; [discriminate|intros [H _]; discriminate]|].
    cbv zeta.
    destruct (write_fault env output (rendered (Errors p))) as [[n e]|]; cbn [fst].
    + split; [discriminate|intros [_ H]; discriminate].
    + split; auto.
  - intros e He. rewrite He. reflexivity.
  - intros path Hp. destruct (create_fault env output); [reflexivity|].
    cbv zeta.
    destruct (write_fault env output (rendered (Errors p))) as [[n e]|];
      cbn [snd fs set_fs record_event]; rewrite !(update_other _ _ _ _ Hp); reflexivity.
Qed.

Lemma writeOutput_errors_and_frame_witness :
  let env := mkEnv [] (fun _ _ _ f => (Ok "", f))
                   (fun _ => Some (PathError "permission denied")) (fun _ _ => None) in
  let w := mkWorld (update (fun _ => None) "other.go" "package x") [] [] in
  writeOutput env (mkTemplateParams ["PDH_A"]) w = (Some (PathError "permission denied"), w)
  /\ fs (snd (writeOutput env (mkTemplateParams ["PDH_A"]) w)) "other.go"
     = fs w "other.go".
Proof.
  intros env w. split.
  - apply (proj1 (proj2 (writeOutput_errors_and_frame env (mkTemplateParams ["PDH_A"]) w))).
    reflexivity.
  - apply (proj2 (proj2 (writeOutput_errors_and_frame env (mkTemplateParams ["PDH_A"]) w))).
    discriminate.
Defined.

Lemma substring_whole (s : string) : substring 0 (String.length s) s = s.
Proof. induction s as [|c s IH]; simpl; [|rewrite IH]; reflexivity. Qed.

(** X12: once the output file has been created, nothing of what it
    held before survives.  After [writeOutput] the file holds an
    initial part of the rendered text: all of it when the write
    succeeded, the bytes written before the fault otherwise. *)
Theorem writeOutput_truncates (env : Env) (p : TemplateParams) (w : World) :
  create_fault env output = None ->
  (exists n, fs (snd (writeOutput env p w)) output
             = Some (substring 0 n (rendered (Errors p))))
  /\ (fst (writeOutput env p w) = None ->
      fs (snd (writeOutput env p w)) output = Some (rendered (Errors p))).
Proof.
  intros Hc. rewrite writeOutput_unfold, Hc. cbv zeta.
  destruct (write_fault env output (rendered (Errors p))) as [[n e]|];
    cbn [fst snd fs set_fs record_event]; rewrite update_same.
  - split; [exists n; reflexivity|discriminate].
  - split; [|reflexivity].
    exists (String.length (rendered (Errors p))). rewrite substring_whole. reflexivity.
Qed.

Lemma writeOutput_truncates_witness :
  let env := mkEnv [] (fun _ _ _ f => (Ok "", f)) (fun _ => None)
                   (fun _ _ => Some (8, PathError "no space left on device")) in
  let w := mkWorld (update (fun _ => None) output "an older, longer file") [] [] in
  exists n, fs (snd (writeOutput env (mkTemplateParams ["PDH_A"]) w)) output
            = Some (substring 0 n (rendered ["PDH_A"])).
Proof.
  intros env w.
  apply (proj1 (writeOutput_truncates env (mkTemplateParams ["PDH_A"]) w eq_refl)).
Defined.

(** ** The whole run *)


(** X14: the exit status is 0 or 1.  It is 1 exactly when the run has
    added one line, [error: ] and the error's text, to the error
    stream; with status 0 the error stream is as it was. *)
Theorem main_exit_status_and_stderr (env : Env) (w : World) :
  (snd (main env w) = 0 /\ stderr (fst (main env w)) = stderr w)
  \/ (snd (main env w) = 1
      /\ exists e, stderr (fst (main env w))
                   = (stderr w ++ [("error: " ++ Error e ++ NL)%string])%list).
Proof.
  rewrite main_unfold.
  destruct (exec_Output env "gcc" ["-E"; "-dD"; "-"] includes (fs w)) as [[out|e] f1];
    cbv zeta.
  - destruct (create_fault env output) as [e|].
    + right. split; [reflexivity|exists e; reflexivity].
    + destruct (write_fault env output _) as [[n e]|].
      * right. split; [reflexivity|exists e; reflexivity].
      * destruct (exec_Output env "gofmt" ["-w"; output] "" _) as [[o|e] f3].
        -- left. split; reflexivity.
        -- right. split; [reflexivity|exists e; reflexivity].
  - right. split; [reflexivity|exists e; reflexivity].
Qed.

(** X15: the exit status is 0 exactly when the four things [main]
    checks all went well: the [gcc] command gave output, the output
    file could be created, the rendered text of the scanned names
    could be written in full, and the [gofmt] command, run on the files
    as the write left them, succeeded. *)
Theorem main_exit_0_iff (env : Env) (w : World) :
  snd (main env w) = 0
  <-> exists out f1 o f3,
      exec_Output env "gcc" ["-E"; "-dD"; "-"] includes (fs w) = (Ok out, f1)
      /\ create_fault env output = None
      /\ write_fault env output (rendered (fst (scanErrorDefines out))) = None
      /\ exec_Output env "gofmt" ["-w"; output] ""
           (update (update f1 output "") output
                   (rendered (fst (scanErrorDefines out))))
         = (Ok o, f3).
Proof.
  rewrite main_unfold. split.
  - destruct (exec_Output env "gcc" ["-E"; "-dD"; "-"] includes (fs w)) as [[out|e] f1];
      cbv zeta; [|cbn [snd]; discriminate].
    destruct (create_fault env output); [cbn [snd]; discriminate|].
    destruct (write_fault env output _) as [[n e]|] eqn:Hw; [cbn [snd]; discriminate|].
    destruct (exec_Output env "gofmt" ["-w"; output] "" _) as [[o|e] f3] eqn:Hf;
      [|cbn [snd]; discriminate].
    intros _. exists out, f1, o, f3. auto.
  - intros (out & f1 & o & f3 & H1 & H2 & H3 & H4).
    rewrite H1. cbv zeta. rewrite H2, H3, H4. reflexivity.
Qed.

(** X16: when the [gcc] command fails, the program stops there: it
    prints the command's error, exits with status 1, and has neither
    created or truncated the output file nor run the formatter; the
    files are as the command left them. *)
Theorem main_expander_failure (env : Env) (w : World) (e : error) (f1 : files) :
  exec_Output env "gcc" ["-E"; "-dD"; "-"] includes (fs w) = (Err e, f1) ->
  snd (main env w) = 1
  /\ fs (fst (main env w)) = f1
  /\ stderr (fst (main env w)) = (stderr w ++ [("error: " ++ Error e ++ NL)%string])%list
  /\ trace (fst (main env w)) = (trace w ++ [EvExec "gcc" ["-E"; "-dD"; "-"]])%list.
Proof.
  intros H. rewrite main_unfold, H. auto.
Qed.

Lemma main_expander_failure_witness :
  let env := env_of [] (Err (ExecError "exec: gcc: executable file not found"))
                    (Ok "") in
  let w := mkWorld (update (fun _ => None) output "kept") [] [] in
  snd (main env w) = 1
  /\ fs (fst (main env w)) output = Some "kept"
  /\ trace (fst (main env w)) = [EvExec "gcc" ["-E"; "-dD"; "-"]].
Proof.
  intros env w.
  destruct (main_expander_failure env w
              (ExecError "exec: gcc: executable file not found") (fs w) eq_refl)
    as (H1 & H2 & _ & H4).
  rewrite H1, H2, H4. repeat split.
Defined.

(** X17: when the file is created but the write breaks off, the
    program prints the error and exits with status 1 without running
    the formatter, and leaves the output file behind holding only the
    bytes written before the fault. *)
Theorem main_write_fault (env : Env) (w : World) (out : string) (f1 : files)
        (n : nat) (e : error) :
  exec_Output env "gcc" ["-E"; "-dD"; "-"] includes (fs w) = (Ok out, f1) ->
  create_fault env output = None ->
  write_fault env output (rendered (fst (scanErrorDefines out))) = Some (n, e) ->
  snd (main env w) = 1
  /\ fs (fst (main env w)) output
     = Some (substring 0 n (rendered (fst (scanErrorDefines out))))
  /\ stderr (fst (main env w)) = (stderr w ++ [("error: " ++ Error e ++ NL)%string])%list
  /\ trace (fst (main env w)) = (trace w ++ firstn 3 steps)%list.
Proof.
  intros H1 H2 H3. rewrite main_unfold, H1. cbv zeta. rewrite H2, H3.
  cbn [fst snd Fprintln_stderr fs stderr trace]. rewrite update_same. auto.
Qed.

Lemma main_write_fault_witness :
  let env := mkEnv [] (fun _ _ _ f => (Ok sample_output, f)) (fun _ => None)
                   (fun _ _ => Some (8, PathError "no space left on device")) in
  snd (main env empty_world) = 1
  /\ fs (fst (main env empty_world)) output
     = Some (substring 0 8 (rendered (fst (scanErrorDefines sample_output))))
  /\ trace (fst (main env empty_world)) = firstn 3 steps.
Proof.
  intros env.
  destruct (main_write_fault env empty_world sample_output (fun _ => None) 8
              (PathError "no space left on device") eq_refl eq_refl eq_refl)
    as (H1 & H2 & _ & H4).
  rewrite H1, H2, H4. repeat split.
Defined.

(** X18: the steps compose.  When the expander's output has only
    lines shorter than 65536 bytes and the file system raises no fault,
    the file handed to [gofmt] declares exactly the names of the
    matching lines of that output, in order, as constants and as
    members of the map; the files at the end are those [gofmt] left,
    and the exit status is 0 or 1 as [gofmt] succeeded or failed. *)
Theorem main_end_to_end (env : Env) (w : World) (out : string) (f1 f3 : files)
        (r : result string) :
  let names := names_of (text_lines out) in
  exec_Output env "gcc" ["-E"; "-dD"; "-"] includes (fs w) = (Ok out, f1) ->
  all_fit (raw_lines out) = true ->
  create_fault env output = None ->
  write_fault env output (rendered names) = None ->
  exec_Output env "gofmt" ["-w"; output] ""
    (update (update f1 output "") output (rendered names)) = (r, f3) ->
  fs (fst (main env w)) = f3
  /\ snd (main env w) = match r with Ok _ => 0 | Err _ => 1 end
  /\ declared_names (rendered names) = names
  /\ member_names (rendered names) = names.
Proof.
  intros names H1 Hfit H2 H3 H4.
  destruct (scanErrorDefines_complete out Hfit) as (Hn & _ & _).
  fold names in Hn.
  assert (Hnames : forallb is_name names = true) by apply names_of_are_names.
  destruct (declared_names_rendered names Hnames) as [D1 D2].
  rewrite main_unfold, H1. cbv zeta. rewrite Hn, H2, H3, H4.
  destruct r; auto.
Qed.

Lemma main_end_to_end_witness :
  let env := env_of [] (Ok sample_output) (Ok "") in
  snd (main env empty_world) = 0
  /\ declared_names (rendered (names_of (text_lines sample_output)))
     = ["PDH_CSTATUS_VALID_DATA"; "PDH_CSTATUS_NEW_DATA"].
Proof.
  intros env.
  destruct (main_end_to_end env empty_world sample_output (fun _ => None)
              (update (update (fun _ => None) output "") output
                      (rendered (names_of (text_lines sample_output))))
              (Ok "")) as (_ & H2 & H3 & _).
  - reflexivity.
  - vm_compute. reflexivity.
  - reflexivity.
  - reflexivity.
  - reflexivity.
  - split; [exact H2|]. rewrite H3. reflexivity.
Defined.

(** X19: an expander output without a matching line is no error.
    [getErrorDefines] then returns the empty list (also when the scan
    stopped early), and if the file system and the formatter raise no
    fault [main] writes the text with empty blocks, has it formatted
    and exits with status 0, printing nothing. *)
Theorem main_no_matching_line (env : Env) (w : World) (out o : string) (f1 f3 : files) :
  exec_Output env "gcc" ["-E"; "-dD"; "-"] includes (fs w) = (Ok out, f1) ->
  names_of (text_lines out) = [] ->
  create_fault env output = None ->
  write_fault env output (rendered []) = None ->
  exec_Output env "gofmt" ["-w"; output] ""
    (update (update f1 output "") output (rendered [])) = (Ok o, f3) ->
  fst (getErrorDefines env w) = Ok []
  /\ main env w = (mkWorld f3 (stderr w) (trace w ++ steps)%list, 0).
Proof.
  intros H1 Hn H2 H3 H4.
  assert (Hs : fst (scanErrorDefines out) = []).
  { destruct (scanErrorDefines_spec out) as [Hspec _].
    destruct (fitting_prefix (raw_lines out)) as (rest & Hls & _).
    unfold text_lines in Hn. rewrite Hls, map_app, names_of_app in Hn.
    apply app_eq_nil in Hn. destruct Hn as [Hn _]. rewrite Hspec. exact Hn. }
  split.
  - rewrite getErrorDefines_result, H1. cbn [fst]. rewrite Hs. reflexivity.
  - rewrite main_unfold, H1. cbv zeta. rewrite Hs, H2, H3, H4. reflexivity.
Qed.

Lemma main_no_matching_line_witness :
  let env := env_of [] (Ok "") (Ok "") in
  fst (getErrorDefines env empty_world) = Ok []
  /\ snd (main env empty_world) = 0.
Proof.
  intros env.
  destruct (main_no_matching_line env empty_world "" "" (fun _ => None)
              (update (update (fun _ => None) output "") output (rendered [])))
    as [H1 H2]; try reflexivity.
  split; [exact H1|rewrite H2; reflexivity].
Defined.
